(** * web_video_server: the request-routing and session-lifecycle core

    A shallow embedding of [src/web_video_server.cpp] and the properties
    of its session registry sweep, its request handlers, its directory
    page and its start-up configuration.

    Conventions.
    - [std::string] is [string]; [std::vector<T>] is [list T], indexed
      with [!!] and overwritten in place with [<[i:=x]>];
      [std::map<std::string,T>] is [gmap string T].
    - The translation unit is written in the C++03 dialect (boost
      [shared_ptr], [bind], [BOOST_FOREACH], [boost::mutex]): assigning
      one [shared_ptr] slot of the vector to another copies the pointer
      and leaves the source slot as it was.
    - Side effects (log lines, bytes written to a connection, streamers
      created and started) are recorded in order in a trace. *)

From Stdlib Require Import ZArith QArith Qround DecimalString.
From stdpp Require Import base option list gmap strings.

Local Open Scope nat_scope.

(** ** std::string and boost::algorithm helpers *)

Module Str.

(** Number of characters, [std::string::size] and [strlen]. *)
Definition size (s : string) : nat := String.length s.

Fixpoint drop (n : nat) (s : string) : string :=
  match n, s with
  | S n', String _ s' => drop n' s'
  | _, _ => s
  end.

Fixpoint take (n : nat) (s : string) : string :=
  match n, s with
  | S n', String c s' => String c (take n' s')
  | _, _ => EmptyString
  end.

(** [s.substr(pos, n)]: the characters from [pos], at most [n] of them,
    clipped at the end of [s].  ([std::out_of_range] needs
    [pos > s.size()]; see [substr_base_in_range] and
    [substr_label_in_range] for the two call sites.) *)
Definition substr (s : string) (pos n : nat) : string := take n (drop pos s).

(** [s.substr(pos)]: everything from [pos] on. *)
Definition substr_from (s : string) (pos : nat) : string := drop pos s.

(** [boost::starts_with(input, test)]. *)
Fixpoint starts_with (input test : string) {struct test} : bool :=
  match test, input with
  | EmptyString, _ => true
  | String _ _, EmptyString => false
  | String t test', String c input' =>
      if Ascii.eqb c t then starts_with input' test' else false
  end.

(** [boost::algorithm::ends_with(input, test)]. *)
Definition ends_with (input test : string) : bool :=
  (size test <=? size input)
  && String.eqb (drop (size input - size test) input) test.

End Str.

(** ** The standard algorithms used by the sweep *)

Section Algorithms.
Context {A : Type}.
Variable pred : A → bool.

(** [std::find_if]: index of the first element satisfying [pred], the
    size of the vector when there is none. *)
Fixpoint find_if (v : list A) : nat :=
  match v with
  | [] => 0
  | x :: v' => if pred x then 0 else S (find_if v')
  end.

(** The compaction loop of [std::remove_if]:
    [for (; first != last; ++first)
       if (!pred( *first)) { *result = *first; ++result; }]
    with [n = last - first] iterations left. *)
Fixpoint remove_if_loop (n first result : nat) (v : list A) : nat * list A :=
  match n with
  | 0 => (result, v)
  | S n' =>
      match v !! first with
      | None => (result, v)
      | Some x =>
          if pred x then remove_if_loop n' (S first) result v
          else remove_if_loop n' (S first) (S result) (<[result:=x]> v)
      end
  end.

(** [std::remove_if(v.begin(), v.end(), pred)] as the standard library
    implements it: find the first element to remove, then compact the
    elements to keep over it.  Returns the new logical end and the
    vector as the algorithm leaves it (same physical size; the standard
    leaves the slots from the new end on unspecified, this is what they
    hold). *)
Definition remove_if (v : list A) : nat * list A :=
  let first := find_if v in
  if decide (first = length v) then (first, v)
  else remove_if_loop (length v - S first) (S first) first v.

End Algorithms.

(** ** The HTTP collaborator, as far as the handlers use it *)

Inductive status_type := ok | not_found.

(** What a handler can put on a connection: a reply head built with
    [HttpReply::builder], one of the stock replies, or body bytes. *)
Inductive conn_write :=
| WHead (status : status_type) (headers : list (string * string))
| WStock (status : status_type)
| WData (bytes : string).

(** Connections are shared handles; a handle is named by a number. *)
Definition HttpConnectionPtr := nat.

Record HttpRequest := {
  uri : string;
  path : string;
  query_params : gmap string string;
}.

(** Modelled from the spec: [HttpRequest::get_query_param_value_or_default]
    is declared in the http_server headers, which are not part of the
    translation unit; the value of the query parameter when the request
    carries it, the given default when it is absent. *)
Definition get_query_param_value_or_default
  (request : HttpRequest) (name default_value : string) : string :=
  default default_value (query_params request !! name).

(** ** Streamers *)

(** The interface of [ImageStreamer] that this file calls: the activity
    predicate and the bound topic. *)
Class ImageStreamer (T : Type) := {
  isInactive : T → bool;
  getTopic : T → string;
}.

(** [ImageStreamerType]: the per-codec factory and viewer renderer. *)
Record ImageStreamerType (T : Type) := {
  create_streamer : HttpRequest → HttpConnectionPtr → T;
  create_viewer : HttpRequest → string;
}.
Arguments create_streamer {T}.
Arguments create_viewer {T}.

(** ** Observable effects and the mutable state of the server *)

Inductive event (T : Type) :=
| RosInfo (msg : string)
| RosWarn (msg : string)
| ConnWrite (connection : HttpConnectionPtr) (w : conn_write)
| StreamerCreated (s : T)
| StreamerStarted (s : T).
Arguments RosInfo {T}.
Arguments RosWarn {T}.
Arguments ConnWrite {T}.
Arguments StreamerCreated {T}.
Arguments StreamerStarted {T}.

(** [image_subscribers_] and [subscriber_mutex_] of [WebVideoServer],
    together with the trace of effects so far.  [subscriber_mutex_] is
    [true] while some other thread holds the lock. *)
Record State (T : Type) := {
  image_subscribers_ : list T;
  subscriber_mutex_ : bool;
  trace : list (event T);
}.
Arguments image_subscribers_ {T}.
Arguments subscriber_mutex_ {T}.
Arguments trace {T}.

Definition emit {T} (e : list (event T)) (st : State T) : State T :=
  {| image_subscribers_ := image_subscribers_ st;
     subscriber_mutex_ := subscriber_mutex_ st;
     trace := trace st ++ e |}.

Definition connection_write {T} (connection : HttpConnectionPtr)
  (ws : list conn_write) (st : State T) : State T :=
  emit (ConnWrite connection <$> ws) st.

(** What a C++ [throw] can carry: an object of a class derived from
    [std::exception], with its [what()] text, or a value of any other
    type. *)
Inductive exn :=
| StdException (what : string)
| ForeignException (description : string).

(** Result of running a handler: normal return, or an exception leaving
    it, each with the state reached. *)
Inductive outcome (T : Type) :=
| Returned (st : State T)
| Thrown (e : exn) (st : State T).
Arguments Returned {T}.
Arguments Thrown {T}.

Definition HttpServerRequestHandler (T : Type) :=
  HttpRequest → HttpConnectionPtr → State T → outcome T.

(** ** ros_connection_logger *)

Definition ros_connection_logger {T} (forward : HttpServerRequestHandler T)
  (request : HttpRequest) (connection : HttpConnectionPtr)
  (st : State T) : outcome T :=
  let st := emit [RosInfo ("Handling Request: " +:+ uri request)] st in
  match forward request connection st with
  | Returned st' => Returned st'
  | Thrown (StdException what) st' =>
      Returned (emit [RosWarn ("Error Handling Request: " +:+ what)] st')
  | Thrown e st' => Thrown e st'
  end.

(** Modelled from the spec: the request-handling thread of the HTTP
    server (http_server sources are not part of the translation unit)
    passes each inbound request to the server's handler in turn; an
    exception that leaves the handler ends the thread, and the requests
    behind it are not served. *)
Fixpoint serve {T} (handler : HttpServerRequestHandler T)
  (requests : list (HttpRequest * HttpConnectionPtr)) (st : State T) : outcome T :=
  match requests with
  | [] => Returned st
  | (request, connection) :: rest =>
      match handler request connection st with
      | Returned st' => serve handler rest st'
      | Thrown e st' => Thrown e st'
      end
  end.

(** ** cleanup_inactive_streams *)

Section Sweep.
Context {T : Type} `{ImageStreamer T}.

Definition removed_stream_line (s : T) : event T :=
  RosInfo ("Removed Stream: " +:+ getTopic s).

Definition cleanup_inactive_streams (st : State T) : State T :=
  if subscriber_mutex_ st then st (* try_to_lock failed *)
  else
    let '(new_end, v) := remove_if isInactive (image_subscribers_ st) in
    {| image_subscribers_ := take new_end v;
       subscriber_mutex_ := false;
       trace := trace st ++ (removed_stream_line <$> drop new_end v) |}.

End Sweep.

(** ** The request handlers *)

Section Handlers.
Context {T : Type} `{ImageStreamer T}.
Variable stream_types_ : gmap string (ImageStreamerType T).
Variable JpegSnapshotStreamer : HttpRequest → HttpConnectionPtr → T.

(** [boost::mutex::scoped_lock lock(subscriber_mutex_);
     image_subscribers_.push_back(streamer);]
    The acquisition blocks until the lock is free; the lock is released
    when the handler returns. *)
Definition register_streamer (streamer : T) (st : State T) : State T :=
  {| image_subscribers_ := image_subscribers_ st ++ [streamer];
     subscriber_mutex_ := false;
     trace := trace st |}.

Definition handle_stream : HttpServerRequestHandler T :=
  λ request connection st,
  let type := get_query_param_value_or_default request "type" "mjpeg" in
  match stream_types_ !! type with
  | Some stream_type =>
      let streamer := create_streamer stream_type request connection in
      let st := emit [StreamerCreated streamer] st in
      let st := emit [StreamerStarted streamer] st in
      Returned (register_streamer streamer st)
  | None =>
      Returned (connection_write connection [WStock not_found] st)
  end.

Definition handle_snapshot : HttpServerRequestHandler T :=
  λ request connection st,
  let streamer := JpegSnapshotStreamer request connection in
  let st := emit [StreamerCreated streamer] st in
  let st := emit [StreamerStarted streamer] st in
  Returned (register_streamer streamer st).

Definition handle_stream_viewer : HttpServerRequestHandler T :=
  λ request connection st,
  let type := get_query_param_value_or_default request "type" "mjpeg" in
  match stream_types_ !! type with
  | Some stream_type =>
      let topic := get_query_param_value_or_default request "topic" "" in
      let st :=
        connection_write connection
          [WHead ok [("Connection", "close");
                     ("Server", "web_video_server");
                     ("Content-type", "text/html;")]] st in
      let ss := "<html><head><title>" +:+ topic +:+ "</title></head><body>" in
      let ss := ss +:+ "<h1>" +:+ topic +:+ "</h1>" in
      let ss := ss +:+ create_viewer stream_type request in
      let ss := ss +:+ "</body></html>" in
      Returned (connection_write connection [WData ss] st)
  | None =>
      Returned (connection_write connection [WStock not_found] st)
  end.

End Handlers.

(** ** handle_list_streams *)

Record TopicInfo := {
  name : string;
  datatype : string;
}.

Definition image_message_type : string := "sensor_msgs/Image".
Definition camera_info_message_type : string := "sensor_msgs/CameraInfo".

(** The first loop: sort the names of the advertised topics into
    [image_topics] and [camera_info_topics], in the order of discovery. *)
Fixpoint collect_topics (topics : list TopicInfo)
  (image_topics camera_info_topics : list string) : list string * list string :=
  match topics with
  | [] => (image_topics, camera_info_topics)
  | topic :: rest =>
      if decide (datatype topic = image_message_type) then
        collect_topics rest (image_topics ++ [name topic]) camera_info_topics
      else if decide (datatype topic = camera_info_message_type) then
        collect_topics rest image_topics (camera_info_topics ++ [name topic])
      else collect_topics rest image_topics camera_info_topics
  end.

(** The double-quote character of the C++ literals. *)
Definition dq : string := String (Ascii.ascii_of_nat 34) EmptyString.

(** The nine writes that render one claimed image topic. *)
Definition image_topic_item (base_topic image_topic : string) : list string :=
  [ "<li><a href=" +:+ dq +:+ "/stream_viewer?topic=";
    image_topic;
    dq +:+ ">";
    Str.substr_from image_topic (Str.size base_topic);
    "</a> (";
    "<a href=" +:+ dq +:+ "/snapshot?topic=";
    image_topic;
    dq +:+ ">Snapshot</a>)";
    "</li>" ].

(** The inner loop over [image_topics]: a topic that starts with
    [base_topic] is rendered and erased from the vector, the iterator
    staying on the element that follows; any other topic is stepped
    over.  Returns the writes and the vector as the loop leaves it. *)
Fixpoint scan_image_topics (base_topic : string) (image_topics : list string)
  : list string * list string :=
  match image_topics with
  | [] => ([], [])
  | image_topic :: rest =>
      let '(writes, kept) := scan_image_topics base_topic rest in
      if Str.starts_with image_topic base_topic then
        (image_topic_item base_topic image_topic ++ writes, kept)
      else (writes, image_topic :: kept)
  end.

(** The body of the BOOST_FOREACH over [camera_info_topics]. *)
Definition list_camera_info_topic (camera_info_topic : string)
  (image_topics : list string) : list string * list string :=
  let '(writes, image_topics) :=
    if Str.ends_with camera_info_topic "/camera_info" then
      let base_topic :=
        Str.substr camera_info_topic 0
          (Str.size camera_info_topic - Str.size "camera_info") in
      let '(items, kept) := scan_image_topics base_topic image_topics in
      (["<li>"; base_topic; "<ul>"] ++ items ++ ["</ul>"], kept)
    else ([], image_topics) in
  (writes ++ ["</li>"], image_topics).

Fixpoint list_camera_info_topics (camera_info_topics image_topics : list string)
  : list string * list string :=
  match camera_info_topics with
  | [] => ([], image_topics)
  | camera_info_topic :: rest =>
      let '(writes, image_topics) :=
        list_camera_info_topic camera_info_topic image_topics in
      let '(writes', image_topics) :=
        list_camera_info_topics rest image_topics in
      (writes ++ writes', image_topics)
  end.

Definition list_streams_head : list conn_write :=
  [ WHead ok
      [("Connection", "close");
       ("Server", "web_video_server");
       ("Cache-Control",
        "no-cache, no-store, must-revalidate, pre-check=0, post-check=0, max-age=0");
       ("Pragma", "no-cache");
       ("Content-type", "text/html;")];
    WData ("<html>"
           +:+ "<head><title>ROS Image Topic List</title></head>"
           +:+ "<body><h1>Available ROS Image Topics:</h1>");
    WData "<ul>" ].

(** Everything [handle_list_streams] writes to the connection when the
    master reports [topics]. *)
Definition list_streams_writes (topics : list TopicInfo) : list conn_write :=
  let '(image_topics, camera_info_topics) := collect_topics topics [] [] in
  list_streams_head
  ++ (WData <$> (list_camera_info_topics camera_info_topics image_topics).1)
  ++ [WData "</ul></body></html>"].

(** [topics] is what [ros::master::getTopics] reports at the time of the
    request. *)
Definition handle_list_streams {T} (topics : list TopicInfo)
  : HttpServerRequestHandler T :=
  λ request connection st,
  Returned (connection_write connection (list_streams_writes topics) st).

(** ** The constructor *)

(** Modelled from the spec: [HttpRequestHandlerGroup] (http_server
    sources are not part of the translation unit) is a mapping from path
    string to handler; a request whose path has no entry goes to the
    default handler the group was built with. *)
Record HttpRequestHandlerGroup (T : Type) := {
  default_handler : HttpServerRequestHandler T;
  handlers : list (string * HttpServerRequestHandler T);
}.
Arguments default_handler {T}.
Arguments handlers {T}.

Definition addHandlerForPath {T} (path : string)
  (handler : HttpServerRequestHandler T) (g : HttpRequestHandlerGroup T)
  : HttpRequestHandlerGroup T :=
  {| default_handler := default_handler g;
     handlers := handlers g ++ [(path, handler)] |}.

Fixpoint dispatch {T} (hs : list (string * HttpServerRequestHandler T))
  (fallback : HttpServerRequestHandler T) : HttpServerRequestHandler T :=
  λ request connection st,
  match hs with
  | [] => fallback request connection st
  | (p, handler) :: hs' =>
      if decide (path request = p) then handler request connection st
      else dispatch hs' fallback request connection st
  end.

Definition handle_request {T} (g : HttpRequestHandlerGroup T)
  : HttpServerRequestHandler T :=
  dispatch (handlers g) (default_handler g).

(** [HttpReply::stock_reply(status)] used as a handler. *)
Definition stock_reply {T} (status : status_type) : HttpServerRequestHandler T :=
  λ request connection st,
  Returned (connection_write connection [WStock status] st).

(** [ros::Timer]: a period in seconds and the callback it fires. *)
Record Timer (T : Type) := {
  period : Q;
  callback : State T → State T;
}.
Arguments period {T}.
Arguments callback {T}.

Record HttpServer (T : Type) := {
  address : string;
  port : string;
  request_handler : HttpServerRequestHandler T;
  thread_pool_size : Z;
}.
Arguments address {T}.
Arguments port {T}.
Arguments request_handler {T}.
Arguments thread_pool_size {T}.

Record WebVideoServer (T : Type) := {
  cleanup_timer_ : Timer T;
  ros_threads_ : Z;
  stream_types_ : gmap string (ImageStreamerType T);
  handler_group_ : HttpRequestHandlerGroup T;
  server_ : HttpServer T;
}.
Arguments cleanup_timer_ {T}.
Arguments ros_threads_ {T}.
Arguments stream_types_ {T}.
Arguments handler_group_ {T}.
Arguments server_ {T}.

(** [NodeHandle::param(name, var, default)] for an [int]: the value on
    the parameter server when the name is set, the default otherwise. *)
Definition param (nh : gmap string Z) (name : string) (default_value : Z) : Z :=
  default default_value (nh !! name).

(** [boost::lexical_cast<std::string>] of an [int]. *)
Definition lexical_cast (n : Z) : string := NilZero.string_of_int (Z.to_int n).

(** Milliseconds in a [ros::Duration] given in seconds. *)
Definition to_msec (d : Q) : Z := Qfloor (d * 1000).

Section Constructor.
Context {T : Type} `{ImageStreamer T}.
Variable MjpegStreamerType Vp8StreamerType : ImageStreamerType T.
Variable LibavStreamerType : string → string → string → ImageStreamerType T.
Variable JpegSnapshotStreamer : HttpRequest → HttpConnectionPtr → T.
(** What [ros::master::getTopics] reports. *)
Variable master_topics : list TopicInfo.

Definition WebVideoServer_new (private_nh : gmap string Z) : WebVideoServer T :=
  let cleanup_timer :=
    {| period := 0.5; callback := cleanup_inactive_streams |} in
  let port := param private_nh "port" 8080 in
  let server_threads := param private_nh "server_threads" 1 in
  let ros_threads := param private_nh "ros_threads" 2 in
  let stream_types : gmap string (ImageStreamerType T) := ∅ in
  let stream_types := <["mjpeg" := MjpegStreamerType]> stream_types in
  let stream_types := <["vp8" := Vp8StreamerType]> stream_types in
  let stream_types :=
    <["h264" := LibavStreamerType "mp4" "libx264" "video/mp4"]> stream_types in
  let handler_group :=
    {| default_handler := stock_reply not_found; handlers := [] |} in
  let handler_group :=
    addHandlerForPath "/" (handle_list_streams master_topics) handler_group in
  let handler_group :=
    addHandlerForPath "/stream" (handle_stream stream_types) handler_group in
  let handler_group :=
    addHandlerForPath "/stream_viewer" (handle_stream_viewer stream_types)
      handler_group in
  let handler_group :=
    addHandlerForPath "/snapshot" (handle_snapshot JpegSnapshotStreamer)
      handler_group in
  {| cleanup_timer_ := cleanup_timer;
     ros_threads_ := ros_threads;
     stream_types_ := stream_types;
     handler_group_ := handler_group;
     server_ :=
       {| address := "0.0.0.0";
          port := lexical_cast port;
          request_handler := ros_connection_logger (handle_request handler_group);
          thread_pool_size := server_threads |} |}.

End Constructor.

(** ** The directory page as the specification describes it *)

(** The base of a metadata topic: its name without the trailing
    ["camera_info"]. *)
Definition base_of (camera_info_topic : string) : string :=
  Str.take (Str.size camera_info_topic - 11) camera_info_topic.

(** A metadata topic can claim a data topic when it ends with the fixed
    suffix and its base is a prefix of the data topic's name. *)
Definition can_claim (camera_info_topic image_topic : string) : bool :=
  Str.ends_with camera_info_topic "/camera_info"
  && Str.starts_with image_topic (base_of camera_info_topic).

(** First match wins: the position, in discovery order, of the metadata
    topic that claims a data topic, if any does. *)
Fixpoint claimant (camera_info_topics : list string) (image_topic : string)
  : option nat :=
  match camera_info_topics with
  | [] => None
  | c :: rest =>
      if can_claim c image_topic then Some 0
      else S <$> claimant rest image_topic
  end.

(** What one metadata topic contributes to the page, given the data
    topics it claims. *)
Definition directory_entry (camera_info_topic : string) (claimed : list string)
  : list string :=
  (if Str.ends_with camera_info_topic "/camera_info" then
     ["<li>"; base_of camera_info_topic; "<ul>"]
     ++ concat (image_topic_item (base_of camera_info_topic) <$> claimed)
     ++ ["</ul>"]
   else [])
  ++ ["</li>"].

Definition directory_entries (camera_info_topics image_topics : list string)
  : list string :=
  concat
    (imap
       (λ i c,
          directory_entry c
            (filter (λ d, claimant camera_info_topics d = Some i) image_topics))
       camera_info_topics).

(** The names of the discovered sources by declared kind, in discovery
    order. *)
Definition data_names (topics : list TopicInfo) : list string :=
  name <$> filter (λ t, datatype t = image_message_type) topics.

Definition metadata_names (topics : list TopicInfo) : list string :=
  name <$> filter (λ t, datatype t = camera_info_message_type) topics.

(** A rendered list item: viewer link labelled [label], snapshot link. *)
Definition rendered_item (topic label : string) : list string :=
  [ "<li><a href=" +:+ dq +:+ "/stream_viewer?topic="; topic; dq +:+ ">";
    label; "</a> ("; "<a href=" +:+ dq +:+ "/snapshot?topic="; topic;
    dq +:+ ">Snapshot</a>)"; "</li>" ].

(** The lines logged by a sweep, and the sessions it has to remove. *)
Definition logged_by_sweep {T} `{ImageStreamer T} (st : State T) : list (event T) :=
  drop (length (trace st)) (trace (cleanup_inactive_streams st)).

Definition removed_by_sweep {T} `{ImageStreamer T} (st : State T) : list T :=
  filter (λ s, isInactive s = true) (image_subscribers_ st).

(** ** Concrete data for the examples *)

(** A streamer reduced to what the interface reads. *)
Record SimpleStreamer := {
  topic_ : string;
  inactive_ : bool;
}.

#[export] Instance SimpleStreamer_ImageStreamer : ImageStreamer SimpleStreamer :=
  {| isInactive := inactive_; getTopic := topic_ |}.

Definition simple_type : ImageStreamerType SimpleStreamer :=
  {| create_streamer :=
       λ request _,
         {| topic_ := get_query_param_value_or_default request "topic" "";
            inactive_ := false |};
     create_viewer := λ _, "<img/>" |}.

Definition simple_snapshot (request : HttpRequest) (_ : HttpConnectionPtr)
  : SimpleStreamer :=
  {| topic_ := get_query_param_value_or_default request "topic" "";
     inactive_ := false |}.

Definition example_server (topics : list TopicInfo) (private_nh : gmap string Z)
  : WebVideoServer SimpleStreamer :=
  WebVideoServer_new simple_type simple_type (λ _ _ _, simple_type)
    simple_snapshot topics private_nh.

Definition idle_state (subscribers : list SimpleStreamer) : State SimpleStreamer :=
  {| image_subscribers_ := subscribers;
     subscriber_mutex_ := false;
     trace := [] |}.

Definition contended_state (subscribers : list SimpleStreamer)
  : State SimpleStreamer :=
  {| image_subscribers_ := subscribers;
     subscriber_mutex_ := true;
     trace := [] |}.

Definition dead_a : SimpleStreamer := {| topic_ := "/a"; inactive_ := true |}.
Definition live_b : SimpleStreamer := {| topic_ := "/b"; inactive_ := false |}.
Definition dead_c : SimpleStreamer := {| topic_ := "/c"; inactive_ := true |}.
Definition live_d : SimpleStreamer := {| topic_ := "/d"; inactive_ := false |}.

Definition image_topic (n : string) : TopicInfo :=
  {| name := n; datatype := image_message_type |}.
Definition camera_info_topic (n : string) : TopicInfo :=
  {| name := n; datatype := camera_info_message_type |}.

(** The discovery result of the pairing scenario. *)
Definition two_cameras : list TopicInfo :=
  [ camera_info_topic "/cam1/camera_info";
    image_topic "/cam1/image_raw";
    camera_info_topic "/cam2/camera_info";
    image_topic "/cam2/image_raw";
    image_topic "/cam2/image_raw/compressed";
    image_topic "/other/image_raw" ].

Definition get_request (p : string) (params : list (string * string)) : HttpRequest :=
  {| uri := p; path := p; query_params := list_to_map params |}.

(** A handler that fails on every call with an exception that is not
    derived from [std::exception]. *)
Definition throws_foreign : HttpServerRequestHandler SimpleStreamer :=
  λ _ _ st, Thrown (ForeignException "boost::thread_interrupted") st.

(** A handler that fails on every call with a [std::runtime_error]. *)
Definition throws_runtime_error : HttpServerRequestHandler SimpleStreamer :=
  λ _ _ st, Thrown (StdException "std::runtime_error") st.

(** A dispatch table with a failing handler next to the directory page. *)
Definition faulty_group : HttpRequestHandlerGroup SimpleStreamer :=
  addHandlerForPath "/" (handle_list_streams two_cameras)
    (addHandlerForPath "/boom" throws_runtime_error
       {| default_handler := stock_reply not_found; handlers := [] |}).

(** The same table with a handler that throws something else. *)
Definition foreign_group : HttpRequestHandlerGroup SimpleStreamer :=
  addHandlerForPath "/" (handle_list_streams two_cameras)
    (addHandlerForPath "/boom" throws_foreign
       {| default_handler := stock_reply not_found; handlers := [] |}).

(** The discovery result of the pairing scenario in another order, among
    topics of other types. *)
Definition two_cameras_among_others : list TopicInfo :=
  [ {| name := "/tf"; datatype := "tf2_msgs/TFMessage" |};
    image_topic "/cam1/image_raw";
    image_topic "/cam2/image_raw";
    camera_info_topic "/cam1/camera_info";
    image_topic "/cam2/image_raw/compressed";
    {| name := "/rosout"; datatype := "rosgraph_msgs/Log" |};
    image_topic "/other/image_raw";
    camera_info_topic "/cam2/camera_info" ].

(** * Properties *)

(** ** std::remove_if keeps exactly the elements that fail the predicate *)

(** Closes [¬ pred x] and [¬ ¬ pred x] goals once the value of [pred x]
    is among the hypotheses. *)
Ltac by_pred H := rewrite H; simpl; tauto.

Section AlgorithmFacts.
Context {A : Type}.
Variable pred : A → bool.

Lemma find_if_le (v : list A) : find_if pred v ≤ length v.
Proof. induction v as [|x v IH]; simpl; [lia|]. destruct (pred x); simpl; lia. Qed.

Lemma find_if_prefix_kept (v : list A) :
  filter (λ x, ¬ pred x) (take (find_if pred v) v) = take (find_if pred v) v.
Proof.
  induction v as [|x v IH]; simpl; [done|].
  destruct (pred x) eqn:Hx; simpl; [done|].
  rewrite filter_cons_True; [by rewrite IH | by_pred Hx].
Qed.

Lemma find_if_hit (v : list A) :
  find_if pred v < length v →
  ∃ x, v !! find_if pred v = Some x ∧ pred x = true.
Proof.
  induction v as [|x v IH]; simpl; [lia|].
  destruct (pred x) eqn:Hx; simpl; [by eauto|].
  intros Hlt. apply IH. lia.
Qed.

Lemma remove_if_loop_spec (n : nat) :
  ∀ (first result : nat) (v : list A),
    result ≤ first → first + n = length v →
    ∀ r v', remove_if_loop pred n first result v = (r, v') →
      take r v' = take result v ++ filter (λ x, ¬ pred x) (drop first v)
      ∧ length v' = length v
      ∧ result ≤ r ≤ length v.
Proof.
  induction n as [|n IH]; intros first result v Hle Hlen r v' Hrun; simpl in Hrun.
  - injection Hrun as <- <-.
    rewrite drop_ge by lia. rewrite filter_nil, app_nil_r. split; [done|]. lia.
  - destruct (v !! first) as [x|] eqn:Hx; cycle 1.
    { apply lookup_ge_None in Hx. lia. }
    rewrite (drop_S _ _ _ Hx).
    destruct (pred x) eqn:Hp.
    + apply IH in Hrun; [|lia..]. destruct Hrun as (-> & -> & ?).
      rewrite filter_cons_False; [|by_pred Hp].
      split; [done|]. lia.
    + apply IH in Hrun; [|rewrite ?length_insert; lia..].
      destruct Hrun as (-> & -> & ?). rewrite length_insert in *.
      rewrite filter_cons_True; [|by_pred Hp].
      rewrite drop_insert_lt by lia.
      assert (result < length v) as Hres by lia.
      destruct (lookup_lt_is_Some_2 (<[result:=x]> v) result) as [y Hy];
        [by rewrite length_insert|].
      rewrite (take_S_r _ _ _ Hy).
      rewrite list_lookup_insert_eq in Hy by done. injection Hy as <-.
      rewrite take_insert_ge by lia.
      rewrite <- app_assoc. split; [done|]. lia.
Qed.

Lemma remove_if_spec (v : list A) (r : nat) (v' : list A) :
  remove_if pred v = (r, v') →
  take r v' = filter (λ x, ¬ pred x) v ∧ length v' = length v ∧ r ≤ length v.
Proof.
  unfold remove_if. pose proof (find_if_le v) as Hle.
  pose proof (find_if_prefix_kept v) as Hkept.
  destruct (decide (find_if pred v = length v)) as [Heq|Hne].
  - intros [= <- <-]. rewrite Heq in *. rewrite firstn_all in *. by rewrite Hkept.
  - intros Hrun. apply remove_if_loop_spec in Hrun; [|lia..].
    destruct Hrun as (-> & -> & ?). split; [|lia].
    destruct (find_if_hit v) as (x & Hx & Hp); [lia|].
    transitivity
      (filter (λ x, ¬ pred x) (take (find_if pred v) v ++ drop (find_if pred v) v));
      [|by rewrite take_drop].
    rewrite filter_app, Hkept, (drop_S _ _ _ Hx).
    rewrite filter_cons_False; [done|]. by_pred Hp.
Qed.

(** When nothing satisfies the predicate the vector is left as it is and
    the new end is the old one. *)
Lemma remove_if_none (v : list A) :
  Forall (λ x, ¬ pred x) v → remove_if pred v = (length v, v).
Proof.
  intros Hall. unfold remove_if.
  assert (find_if pred v = length v) as ->.
  { induction Hall as [|x v Hx _ IH]; simpl; [done|].
    destruct (pred x); [by destruct Hx|]. by rewrite IH. }
  by rewrite decide_True.
Qed.

End AlgorithmFacts.

(** ** The registry sweep *)

Section SweepFacts.
Context {T : Type} `{ImageStreamer T}.

(** The sweep with the lock acquired, in closed form: what survives is
    the first [new_end] slots, what is logged is read from the slots
    behind them. *)
Lemma cleanup_unlocked (st : State T) :
  subscriber_mutex_ st = false →
  ∃ new_end v,
    remove_if isInactive (image_subscribers_ st) = (new_end, v)
    ∧ cleanup_inactive_streams st
      = {| image_subscribers_ := filter (λ s, ¬ isInactive s) (image_subscribers_ st);
           subscriber_mutex_ := false;
           trace := trace st ++ (removed_stream_line <$> drop new_end v) |}.
Proof.
  intros Hfree. unfold cleanup_inactive_streams. rewrite Hfree.
  destruct (remove_if isInactive (image_subscribers_ st)) as [new_end v] eqn:Hrun.
  exists new_end, v. split; [done|].
  by destruct (remove_if_spec _ _ _ _ Hrun) as (-> & _).
Qed.

(** C2. When the sweep acquires the lock, the registry afterwards holds
    exactly the sessions held before whose [isInactive()] was false, in
    their order; a session that is gone reported [isInactive()] true;
    and a registry of inactive sessions only is emptied. *)
Theorem sweep_keeps_exactly_the_active (st : State T) :
  subscriber_mutex_ st = false →
  image_subscribers_ (cleanup_inactive_streams st)
  = filter (λ s, ¬ isInactive s) (image_subscribers_ st)
  ∧ (∀ s, s ∈ image_subscribers_ (cleanup_inactive_streams st)
          ↔ s ∈ image_subscribers_ st ∧ isInactive s = false)
  ∧ (∀ s, s ∈ image_subscribers_ st →
          s ∉ image_subscribers_ (cleanup_inactive_streams st) →
          isInactive s = true)
  ∧ (Forall (λ s, isInactive s = true) (image_subscribers_ st) →
     image_subscribers_ (cleanup_inactive_streams st) = []).
Proof.
  intros Hfree.
  destruct (cleanup_unlocked st Hfree) as (new_end & v & _ & ->). simpl.
  assert (∀ s, s ∈ filter (λ s, ¬ isInactive s) (image_subscribers_ st)
               ↔ s ∈ image_subscribers_ st ∧ isInactive s = false) as Hmem.
  { intros s. rewrite list_elem_of_filter.
    destruct (isInactive s); simpl; intuition congruence. }
  split; [done|]. split; [done|]. split.
  - intros s Hin Hout. rewrite Hmem in Hout.
    destruct (isInactive s); [done|]. by destruct Hout.
  - generalize (image_subscribers_ st). intros l Hall.
    induction Hall as [|s l Hs _ IH]; [done|].
    rewrite filter_cons_False; [exact IH|]. by_pred Hs.
Qed.

(** C5. When the lock is held elsewhere, the sweep returns at once and
    changes nothing: same registry, same lock, nothing logged. *)
Theorem sweep_contended_is_noop (st : State T) :
  subscriber_mutex_ st = true →
  cleanup_inactive_streams st = st.
Proof.
  intros Hheld. unfold cleanup_inactive_streams. by rewrite Hheld.
Qed.

(** C8. Two uncontended sweeps in a row do what one does: the first
    leaves the lock free for the second, the second removes nothing,
    logs nothing and leaves the state of the first unchanged; and all a
    sweep adds to the trace is log lines. *)
Theorem sweep_idempotent (st : State T) :
  subscriber_mutex_ st = false →
  subscriber_mutex_ (cleanup_inactive_streams st) = false
  ∧ cleanup_inactive_streams (cleanup_inactive_streams st)
    = cleanup_inactive_streams st
  ∧ image_subscribers_ (cleanup_inactive_streams (cleanup_inactive_streams st))
    = filter (λ s, ¬ isInactive s) (image_subscribers_ st)
  ∧ ∃ removed,
      trace (cleanup_inactive_streams (cleanup_inactive_streams st))
      = trace st ++ (removed_stream_line <$> removed).
Proof.
  intros Hfree.
  destruct (cleanup_unlocked st Hfree) as (new_end & v & _ & Hone).
  assert (cleanup_inactive_streams (cleanup_inactive_streams st)
          = cleanup_inactive_streams st) as Htwice.
  { rewrite Hone. unfold cleanup_inactive_streams at 1. simpl.
    rewrite remove_if_none.
    - rewrite firstn_all, drop_all. simpl. by rewrite app_nil_r.
    - apply Forall_forall. intros s Hs. by apply list_elem_of_filter in Hs as [? _]. }
  rewrite Htwice, Hone. simpl. eauto.
Qed.

End SweepFacts.

(** C6, at a registry holding an inactive session on ["/a"] followed by
    an active one on ["/b"]: the sweep removes the session on ["/a"] and
    logs ["Removed Stream: /b"], the topic of the session it keeps.  The
    logged lines are not the topics of the removed sessions. *)
Theorem sweep_logs_a_kept_session :
  image_subscribers_ (cleanup_inactive_streams (idle_state [dead_a; live_b]))
  = [live_b]
  ∧ removed_by_sweep (idle_state [dead_a; live_b]) = [dead_a]
  ∧ logged_by_sweep (idle_state [dead_a; live_b])
    = [RosInfo "Removed Stream: /b"]
  ∧ ¬ (logged_by_sweep (idle_state [dead_a; live_b])
       ≡ₚ removed_stream_line <$> removed_by_sweep (idle_state [dead_a; live_b])).
Proof.
  split; [done|]. split; [done|]. split; [done|].
  intros Hperm. vm_compute in Hperm.
  apply Permutation_singleton_l in Hperm. discriminate Hperm.
Qed.

(** ** Strings *)

Lemma Str_append_cons (x : Ascii.ascii) (a b : string) :
  String x a +:+ b = String x (a +:+ b).
Proof. reflexivity. Qed.

Lemma Str_append_assoc (a b c : string) : (a +:+ b) +:+ c = a +:+ (b +:+ c).
Proof.
  induction a as [|x a IH]; [done|]. rewrite !Str_append_cons. by rewrite IH.
Qed.

Lemma Str_size_append (a b : string) :
  Str.size (a +:+ b) = Str.size a + Str.size b.
Proof.
  unfold Str.size. induction a as [|x a IH]; [done|].
  rewrite Str_append_cons. simpl. by rewrite IH.
Qed.

Lemma Str_take_drop (n : nat) (s : string) : Str.take n s +:+ Str.drop n s = s.
Proof.
  revert s. induction n as [|n IH]; intros [|c s]; simpl; try done.
  rewrite Str_append_cons. by rewrite IH.
Qed.

Lemma Str_take_append (p t : string) (k : nat) :
  Str.take (Str.size p + k) (p +:+ t) = p +:+ Str.take k t.
Proof.
  induction p as [|x p IH]; [done|].
  rewrite !Str_append_cons. unfold Str.size in *. simpl. by rewrite IH.
Qed.

Lemma Str_size_take_le (n : nat) (s : string) :
  n ≤ Str.size s → Str.size (Str.take n s) = n.
Proof.
  unfold Str.size. revert s. induction n as [|n IH]; intros [|c s]; simpl;
    try done; try lia.
  intros Hle. f_equal. apply IH. lia.
Qed.

(** A string that starts with [test] is [test] followed by what
    [substr(test.size())] returns. *)
Lemma Str_starts_with_split (input test : string) :
  Str.starts_with input test = true →
  input = test +:+ Str.substr_from input (Str.size test).
Proof.
  revert input. induction test as [|t test IH]; intros [|c input]; simpl;
    try done.
  destruct (Ascii.eqb_spec c t) as [->|]; [|done].
  intros Hrest. unfold Str.substr_from in *. simpl.
  rewrite Str_append_cons. f_equal. by apply IH.
Qed.

(** A string that ends with [test] is a prefix followed by [test]. *)
Lemma Str_ends_with_split (input test : string) :
  Str.ends_with input test = true →
  Str.size test ≤ Str.size input
  ∧ input = Str.take (Str.size input - Str.size test) input +:+ test.
Proof.
  unfold Str.ends_with. intros Hends.
  apply andb_true_iff in Hends as [Hle Heq].
  apply Nat.leb_le in Hle. apply String.eqb_eq in Heq.
  split; [done|]. rewrite <- Heq at 2. by rewrite Str_take_drop.
Qed.

(** The base computed by the directory handler for a metadata topic that
    ends with ["/camera_info"]: the name minus ["camera_info"], still
    ending with the separator. *)
Lemma base_of_camera_info (camera_info_topic : string) :
  Str.ends_with camera_info_topic "/camera_info" = true →
  ∃ parent,
    base_of camera_info_topic = parent +:+ "/"
    ∧ camera_info_topic = base_of camera_info_topic +:+ "camera_info".
Proof.
  intros Hends. apply Str_ends_with_split in Hends as [Hle Hsplit].
  set (parent := Str.take (Str.size camera_info_topic - Str.size "/camera_info")
                   camera_info_topic) in *.
  assert (Str.size parent = Str.size camera_info_topic - 12) as Hsize.
  { apply Str_size_take_le. lia. }
  change (Str.size "/camera_info") with 12 in Hle.
  assert (base_of camera_info_topic = parent +:+ "/") as Hbase.
  { unfold base_of. rewrite Hsplit at 2.
    replace (Str.size camera_info_topic - 11) with (Str.size parent + 1) by lia.
    by rewrite Str_take_append. }
  exists parent. split; [done|].
  rewrite Hbase, Str_append_assoc. exact Hsplit.
Qed.

(** Neither [substr] call of the directory handler is out of range. *)
Lemma substr_base_in_range (camera_info_topic : string) :
  Str.ends_with camera_info_topic "/camera_info" = true →
  0 ≤ Str.size camera_info_topic
  ∧ Str.size "camera_info" ≤ Str.size camera_info_topic.
Proof.
  intros Hends. apply Str_ends_with_split in Hends as [Hle _].
  change (Str.size "/camera_info") with 12 in Hle.
  change (Str.size "camera_info") with 11. lia.
Qed.

Lemma substr_label_in_range (image_topic base_topic : string) :
  Str.starts_with image_topic base_topic = true →
  Str.size base_topic ≤ Str.size image_topic.
Proof.
  intros Hstarts. apply Str_starts_with_split in Hstarts.
  rewrite Hstarts at 1. rewrite Str_size_append. lia.
Qed.

(** ** The directory page *)

Lemma collect_topics_spec (topics : list TopicInfo) (images infos : list string) :
  collect_topics topics images infos
  = (images ++ data_names topics, infos ++ metadata_names topics).
Proof.
  revert images infos. unfold data_names, metadata_names.
  induction topics as [|t topics IH]; intros images infos; simpl.
  { by rewrite !app_nil_r. }
  rewrite !filter_cons.
  destruct (decide (datatype t = image_message_type)) as [Himg|Himg].
  - rewrite IH, <- app_assoc. simpl.
    rewrite decide_False; [done|]. rewrite Himg. discriminate.
  - destruct (decide (datatype t = camera_info_message_type)).
    + rewrite IH, <- app_assoc. done.
    + by rewrite IH.
Qed.

Lemma scan_image_topics_spec (base_topic : string) (image_topics : list string) :
  scan_image_topics base_topic image_topics
  = (concat (image_topic_item base_topic
               <$> filter (λ d, Str.starts_with d base_topic) image_topics),
     filter (λ d, ¬ Str.starts_with d base_topic) image_topics).
Proof.
  induction image_topics as [|d rest IH]; [done|].
  simpl. rewrite IH. rewrite !filter_cons.
  by destruct (Str.starts_with d base_topic).
Qed.

Lemma can_claim_skipped (c d : string) :
  Str.ends_with c "/camera_info" = false → can_claim c d = false.
Proof. unfold can_claim. by intros ->. Qed.

Lemma list_camera_info_topic_spec (c : string) (image_topics : list string) :
  list_camera_info_topic c image_topics
  = (directory_entry c (filter (λ d, can_claim c d) image_topics),
     filter (λ d, ¬ can_claim c d) image_topics).
Proof.
  unfold list_camera_info_topic, directory_entry, can_claim.
  destruct (Str.ends_with c "/camera_info") eqn:Hc; simpl.
  - rewrite scan_image_topics_spec. reflexivity.
  - f_equal. symmetry. induction image_topics as [|d rest IH]; [done|].
    by rewrite filter_cons_True, IH by tauto.
Qed.

Lemma claimant_head (c : string) (cs : list string) (d : string) :
  claimant (c :: cs) d = Some 0 ↔ can_claim c d.
Proof.
  simpl. destruct (can_claim c d); simpl; [done|].
  destruct (claimant cs d); simpl; split; (done || discriminate).
Qed.

Lemma claimant_tail (c : string) (cs : list string) (d : string) (o : option nat) :
  claimant (c :: cs) d = S <$> o ↔ claimant cs d = o ∧ ¬ can_claim c d.
Proof.
  simpl. destruct (can_claim c d); simpl.
  - split; [destruct o; discriminate | tauto].
  - split.
    + intros Heq. split; [|tauto].
      destruct (claimant cs d), o; simpl in *; congruence.
    + by intros [-> _].
Qed.

Lemma list_camera_info_topics_spec (cs image_topics : list string) :
  list_camera_info_topics cs image_topics
  = (directory_entries cs image_topics,
     filter (λ d, claimant cs d = None) image_topics).
Proof.
  revert image_topics. induction cs as [|c cs IH]; intros image_topics.
  { simpl. f_equal. symmetry.
    induction image_topics as [|d rest IHd]; [done|].
    by rewrite filter_cons_True, IHd by done. }
  simpl list_camera_info_topics.
  rewrite list_camera_info_topic_spec, IH.
  unfold directory_entries. rewrite imap_cons. simpl concat. f_equal.
  - f_equal.
    + f_equal. apply list_filter_iff. intros d. symmetry. apply claimant_head.
    + f_equal. apply imap_ext. intros i c' _. simpl. f_equal.
      rewrite list_filter_filter. apply list_filter_iff. intros d.
      symmetry. apply (claimant_tail c cs d (Some i)).
  - rewrite list_filter_filter. apply list_filter_iff. intros d.
    symmetry. apply (claimant_tail c cs d None).
Qed.

(** First match wins, without recursion: the claimant of a data topic is
    the earliest metadata topic, in discovery order, that can claim it. *)
Lemma claimant_first_match (cs : list string) (d : string) (i : nat) :
  claimant cs d = Some i
  ↔ (∃ c, cs !! i = Some c ∧ can_claim c d = true)
    ∧ ∀ j c', j < i → cs !! j = Some c' → can_claim c' d = false.
Proof.
  revert i. induction cs as [|c cs IH]; intros i.
  { simpl. split; [discriminate|]. by intros [(c & Hc & _) _]. }
  destruct i as [|i].
  - rewrite claimant_head. simpl. split.
    + intros Hc. split; [exists c; split; [done|by destruct (can_claim c d)]|].
      intros; lia.
    + intros [(c' & [= <-] & ->) _]. done.
  - rewrite (claimant_tail c cs d (Some i)), IH. simpl. split.
    + intros [[Hi Hbefore] Hc]. split; [done|].
      intros [|j] c' Hj Hc'; simpl in Hc'.
      * injection Hc' as <-. by destruct (can_claim c d).
      * apply (Hbefore j); [lia|done].
    + intros [Hi Hbefore]. split; [split; [done|]|].
      * intros j c' Hj Hc'. apply (Hbefore (S j)); [lia|done].
      * rewrite (Hbefore 0 c); [tauto|lia|done].
Qed.

Lemma list_streams_writes_spec (topics : list TopicInfo) :
  list_streams_writes topics
  = list_streams_head
    ++ (WData <$> directory_entries (metadata_names topics) (data_names topics))
    ++ [WData "</ul></body></html>"].
Proof.
  unfold list_streams_writes. rewrite collect_topics_spec. simpl app.
  by rewrite list_camera_info_topics_spec.
Qed.

(** C3. The directory page.  For every discovery result, every request
    and every state, [handle_list_streams] returns normally having
    written to the request's connection the fixed head, one entry per
    metadata topic in discovery order, and the fixed tail, and nothing
    else; the entry of a metadata topic ending in ["/camera_info"]
    opens an item titled with its base and lists exactly the data topics
    it claims, in their order; a data topic is claimed by the earliest
    metadata topic that ends in the suffix and whose base is a prefix of
    its name; the data topics no one claims are what the working set
    still holds at the end, and nothing is written for them.  The base
    is the name without ["camera_info"] and ends with the separator;
    a claimed topic is rendered with a viewer link and a snapshot link
    and labelled by the rest of its name after the base.  For the
    scenario with two cameras the handler writes the page as stated. *)
Theorem directory_pairing :
  (∀ (T : Type) topics request connection (st : State T),
     ∃ st',
       handle_list_streams topics request connection st = Returned st'
       ∧ image_subscribers_ st' = image_subscribers_ st
       ∧ subscriber_mutex_ st' = subscriber_mutex_ st
       ∧ trace st'
         = trace st
           ++ (ConnWrite connection
                 <$> list_streams_head
                     ++ (WData
                           <$> concat
                                 (imap
                                    (λ i c,
                                       directory_entry c
                                         (filter
                                            (λ d, claimant (metadata_names topics) d
                                                  = Some i)
                                            (data_names topics)))
                                    (metadata_names topics)))
                     ++ [WData "</ul></body></html>"]))
  ∧ (∀ topics,
       list_streams_writes topics
       = list_streams_head
         ++ (WData <$> directory_entries (metadata_names topics) (data_names topics))
         ++ [WData "</ul></body></html>"])
  ∧ (∀ cs image_topics,
       list_camera_info_topics cs image_topics
       = (concat
            (imap (λ i c,
                     directory_entry c
                       (filter (λ d, claimant cs d = Some i) image_topics)) cs),
          filter (λ d, claimant cs d = None) image_topics))
  ∧ (∀ cs d i,
       claimant cs d = Some i
       ↔ (∃ c, cs !! i = Some c
               ∧ Str.ends_with c "/camera_info" = true
               ∧ Str.starts_with d (base_of c) = true)
         ∧ ∀ j c', j < i → cs !! j = Some c' →
             Str.ends_with c' "/camera_info" = true →
             Str.starts_with d (base_of c') = false)
  ∧ (∀ c claimed,
       Str.ends_with c "/camera_info" = true →
       (∃ parent, base_of c = parent +:+ "/")
       ∧ c = base_of c +:+ "camera_info"
       ∧ directory_entry c claimed
         = ["<li>"; base_of c; "<ul>"]
           ++ concat (image_topic_item (base_of c) <$> claimed)
           ++ ["</ul>"; "</li>"])
  ∧ (∀ base_topic d,
       Str.starts_with d base_topic = true →
       ∃ label, d = base_topic +:+ label
                ∧ image_topic_item base_topic d = rendered_item d label)
  ∧ (∀ (T : Type) request connection (st : State T),
       ∃ st',
         handle_list_streams two_cameras request connection st = Returned st'
         ∧ trace st'
           = trace st
             ++ (ConnWrite connection
                   <$> list_streams_head
                       ++ (WData <$>
                             ["<li>"; "/cam1/"; "<ul>"]
                             ++ rendered_item "/cam1/image_raw" "image_raw"
                             ++ ["</ul>"; "</li>"]
                             ++ ["<li>"; "/cam2/"; "<ul>"]
                             ++ rendered_item "/cam2/image_raw" "image_raw"
                             ++ rendered_item "/cam2/image_raw/compressed"
                                  "image_raw/compressed"
                             ++ ["</ul>"; "</li>"])
                       ++ [WData "</ul></body></html>"]))
  ∧ (list_camera_info_topics (metadata_names two_cameras) (data_names two_cameras)).2
    = ["/other/image_raw"].
Proof.
  split.
  { intros T topics request connection st.
    exists (connection_write connection (list_streams_writes topics) st).
    split; [reflexivity|]. split; [reflexivity|]. split; [reflexivity|].
    simpl. by rewrite list_streams_writes_spec. }
  split; [exact list_streams_writes_spec|].
  split; [exact list_camera_info_topics_spec|].
  split.
  { intros cs d i. rewrite claimant_first_match. unfold can_claim. split.
    - intros [(c & Hc & Hclaim) Hbefore].
      apply andb_true_iff in Hclaim as [Hends Hstarts]. split; [by eauto|].
      intros j c' Hj Hc' Hends'. specialize (Hbefore j c' Hj Hc').
      by rewrite Hends' in Hbefore.
    - intros [(c & Hc & Hends & Hstarts) Hbefore]. split.
      + exists c. by rewrite Hends, Hstarts.
      + intros j c' Hj Hc'.
        destruct (Str.ends_with c' "/camera_info") eqn:Hends'; [|done].
        by rewrite (Hbefore j c'). }
  split.
  { intros c claimed Hends.
    destruct (base_of_camera_info c Hends) as (parent & Hbase & Hname).
    split; [by eauto|]. split; [done|].
    unfold directory_entry. rewrite Hends. by rewrite <- !app_assoc. }
  split.
  { intros base_topic d Hstarts.
    exists (Str.substr_from d (Str.size base_topic)).
    pose proof (Str_starts_with_split _ _ Hstarts) as Hsplit.
    split; [done|]. reflexivity. }
  split; [|reflexivity].
  intros T request connection st.
  exists (connection_write connection (list_streams_writes two_cameras) st).
  split; reflexivity.
Qed.

(** C3 at a request for ["/"] on connection 3, with the two cameras on
    the bus and one session registered. *)
Lemma directory_pairing_witness :
  (∃ st',
     handle_list_streams two_cameras (get_request "/" []) 3 (idle_state [live_b])
     = Returned st'
     ∧ image_subscribers_ st' = [live_b]
     ∧ trace st'
       = ConnWrite 3
           <$> list_streams_head
               ++ (WData <$>
                     ["<li>"; "/cam1/"; "<ul>"]
                     ++ rendered_item "/cam1/image_raw" "image_raw"
                     ++ ["</ul>"; "</li>"]
                     ++ ["<li>"; "/cam2/"; "<ul>"]
                     ++ rendered_item "/cam2/image_raw" "image_raw"
                     ++ rendered_item "/cam2/image_raw/compressed"
                          "image_raw/compressed"
                     ++ ["</ul>"; "</li>"])
               ++ [WData "</ul></body></html>"])
  ∧ claimant (metadata_names two_cameras) "/cam2/image_raw/compressed" = Some 1
  ∧ claimant (metadata_names two_cameras) "/other/image_raw" = None
  ∧ directory_entry "/cam2/camera_info" ["/cam2/image_raw"; "/cam2/image_raw/compressed"]
    = ["<li>"; "/cam2/"; "<ul>"]
      ++ rendered_item "/cam2/image_raw" "image_raw"
      ++ rendered_item "/cam2/image_raw/compressed" "image_raw/compressed"
      ++ ["</ul>"; "</li>"].
Proof.
  destruct directory_pairing as (Hhandler & _ & _ & Hclaim & Hentry & _ & Hpage & _).
  split; [|split; [|split]].
  - destruct (Hhandler SimpleStreamer two_cameras (get_request "/" []) 3
                (idle_state [live_b])) as (st' & Hrun & Hsubs & _ & _).
    destruct (Hpage SimpleStreamer (get_request "/" []) 3 (idle_state [live_b]))
      as (st'' & Hrun' & Htrace).
    rewrite Hrun in Hrun'. injection Hrun' as <-.
    exists st'. split; [exact Hrun|]. split; [exact Hsubs | exact Htrace].
  - apply Hclaim. split.
    + exists "/cam2/camera_info". by split.
    + intros [|j] c' Hj Hc' _; [|lia].
      vm_compute in Hc'. injection Hc' as <-. reflexivity.
  - reflexivity.
  - destruct (Hentry "/cam2/camera_info"
                ["/cam2/image_raw"; "/cam2/image_raw/compressed"] eq_refl)
      as (_ & _ & ->).
    reflexivity.
Defined.

Lemma list_camera_info_topics_app (pre rest image_topics : list string) :
  list_camera_info_topics (pre ++ rest) image_topics
  = ((list_camera_info_topics pre image_topics).1
     ++ (list_camera_info_topics rest
           (list_camera_info_topics pre image_topics).2).1,
     (list_camera_info_topics rest
        (list_camera_info_topics pre image_topics).2).2).
Proof.
  revert image_topics. induction pre as [|c pre IH]; intros image_topics; simpl.
  { by destruct (list_camera_info_topics rest image_topics). }
  destruct (list_camera_info_topic c image_topics) as [w kept].
  rewrite IH.
  destruct (list_camera_info_topics pre kept) as [w1 kept1]. simpl.
  by rewrite app_assoc.
Qed.

Lemma list_camera_info_topic_skipped (c : string) (image_topics : list string) :
  Str.ends_with c "/camera_info" = false →
  list_camera_info_topic c image_topics = (["</li>"], image_topics).
Proof. unfold list_camera_info_topic. by intros ->. Qed.

(** C7. A metadata topic that does not end with ["/camera_info"]
    contributes no group: the loop body opens no item, computes no base
    and writes no nested list for it, it can claim no data topic and is
    the claimant of none, and the page with it lists the same groups
    with the same members, and leaves the same data topics unclaimed, as
    the page without it; all the body writes for it is the closing tag
    that ends every iteration. *)
Theorem skipped_metadata_topic_has_no_group
  (c : string) (pre post image_topics : list string) :
  Str.ends_with c "/camera_info" = false →
  list_camera_info_topic c image_topics = (["</li>"], image_topics)
  ∧ (∀ d, can_claim c d = false)
  ∧ (∀ d, claimant (pre ++ c :: post) d ≠ Some (length pre))
  ∧ ∃ before after unclaimed,
      list_camera_info_topics (pre ++ post) image_topics
      = (before ++ after, unclaimed)
      ∧ list_camera_info_topics (pre ++ c :: post) image_topics
        = (before ++ ["</li>"] ++ after, unclaimed).
Proof.
  intros Hskip.
  split; [by apply list_camera_info_topic_skipped|].
  split; [intros d; by apply can_claim_skipped|].
  split.
  { intros d Hclaim. apply claimant_first_match in Hclaim as [(c' & Hc' & Hcan) _].
    rewrite list_lookup_middle in Hc' by done. injection Hc' as <-.
    by rewrite can_claim_skipped in Hcan. }
  exists (list_camera_info_topics pre image_topics).1,
    (list_camera_info_topics post (list_camera_info_topics pre image_topics).2).1,
    (list_camera_info_topics post (list_camera_info_topics pre image_topics).2).2.
  rewrite !list_camera_info_topics_app. split; [done|].
  simpl. rewrite list_camera_info_topic_skipped by done.
  by destruct (list_camera_info_topics post _).
Qed.

(** C7 at ["/sensor/info"], discovered between the two cameras. *)
Lemma skipped_metadata_topic_has_no_group_witness :
  Str.ends_with "/sensor/info" "/camera_info" = false
  ∧ list_camera_info_topic "/sensor/info" (data_names two_cameras)
    = (["</li>"], data_names two_cameras)
  ∧ ∀ d, claimant ["/cam1/camera_info"; "/sensor/info"; "/cam2/camera_info"] d
         ≠ Some 1.
Proof.
  split; [reflexivity|].
  destruct (skipped_metadata_topic_has_no_group "/sensor/info"
              ["/cam1/camera_info"] ["/cam2/camera_info"]
              (data_names two_cameras) eq_refl) as (Hbody & _ & Hclaim & _).
  split; [exact Hbody | exact Hclaim].
Defined.

(** C10. For every discovery result, every request and every state,
    [handle_list_streams] writes to the request's connection, between
    the fixed head and the fixed tail, one segment per camera-info
    topic in discovery order, and every segment ends with ["</li>"]
    whether or not the topic ends with ["/camera_info"]: what the
    iteration opened, followed by one closing tag.  For a topic that
    does not end with the suffix nothing was opened, so its segment is
    the closing tag alone, unmatched.  The same holds of the loop body
    and of the loop for every working set. *)
Theorem closing_tag_for_every_metadata_topic :
  (∀ (T : Type) topics request connection (st : State T),
     ∃ st' (opened : list (list string)),
       handle_list_streams topics request connection st = Returned st'
       ∧ length opened = length (metadata_names topics)
       ∧ trace st'
         = trace st
           ++ (ConnWrite connection
                 <$> list_streams_head
                     ++ (WData <$> concat ((λ o, o ++ ["</li>"]) <$> opened))
                     ++ [WData "</ul></body></html>"])
       ∧ ∀ i c, metadata_names topics !! i = Some c →
           if Str.ends_with c "/camera_info"
           then ∃ items,
                  opened !! i
                  = Some (["<li>"; base_of c; "<ul>"] ++ items ++ ["</ul>"])
           else opened !! i = Some [])
  ∧ (∀ c image_topics,
       ∃ opened,
         (list_camera_info_topic c image_topics).1 = opened ++ ["</li>"]
         ∧ if Str.ends_with c "/camera_info"
           then ∃ items, opened = ["<li>"; base_of c; "<ul>"] ++ items ++ ["</ul>"]
           else opened = [])
  ∧ (∀ cs image_topics,
       ∃ opened : list (list string),
         length opened = length cs
         ∧ (list_camera_info_topics cs image_topics).1
           = concat ((λ o, o ++ ["</li>"]) <$> opened)
         ∧ ∀ i c, cs !! i = Some c →
             Str.ends_with c "/camera_info" = false →
             opened !! i = Some [])
  ∧ (∀ (T : Type) request connection (st : State T),
       ∃ st',
         handle_list_streams
           [ camera_info_topic "/sensor/info";
             camera_info_topic "/cam1/camera_info";
             image_topic "/cam1/image_raw";
             camera_info_topic "/depth" ]
           request connection st
         = Returned st'
         ∧ trace st'
           = trace st
             ++ (ConnWrite connection
                   <$> list_streams_head
                       ++ (WData <$>
                             ["</li>"]
                             ++ (["<li>"; "/cam1/"; "<ul>"]
                                 ++ rendered_item "/cam1/image_raw" "image_raw"
                                 ++ ["</ul>"] ++ ["</li>"])
                             ++ ["</li>"])
                       ++ [WData "</ul></body></html>"])).
Proof.
  assert (∀ c image_topics,
     ∃ opened,
       (list_camera_info_topic c image_topics).1 = opened ++ ["</li>"]
       ∧ if Str.ends_with c "/camera_info"
         then ∃ items, opened = ["<li>"; base_of c; "<ul>"] ++ items ++ ["</ul>"]
         else opened = []) as Hbody.
  { intros c image_topics. unfold list_camera_info_topic.
    destruct (Str.ends_with c "/camera_info").
    - destruct (scan_image_topics _ image_topics) as [items kept] eqn:Hscan.
      simpl. exists (["<li>"; base_of c; "<ul>"] ++ items ++ ["</ul>"]).
      split; [reflexivity|by exists items].
    - by exists []. }
  assert (∀ cs image_topics,
     ∃ opened : list (list string),
       length opened = length cs
       ∧ (list_camera_info_topics cs image_topics).1
         = concat ((λ o, o ++ ["</li>"]) <$> opened)
       ∧ ∀ i c, cs !! i = Some c →
           if Str.ends_with c "/camera_info"
           then ∃ items,
                  opened !! i
                  = Some (["<li>"; base_of c; "<ul>"] ++ items ++ ["</ul>"])
           else opened !! i = Some []) as Hloop.
  { intros cs. induction cs as [|c cs IH]; intros image_topics.
    { exists []. by split; [|split]. }
    simpl. destruct (Hbody c image_topics) as (o & Ho & Hshape).
    destruct (list_camera_info_topic c image_topics) as [w kept] eqn:Hc.
    destruct (IH kept) as (os & Hlen & Hos & Hshapes).
    destruct (list_camera_info_topics cs kept) as [w' kept'].
    simpl in *. exists (o :: os). split; [simpl; by f_equal|]. split.
    - simpl. by rewrite Ho, Hos.
    - intros [|i] c' Hi; simpl in *.
      + injection Hi as <-. destruct (Str.ends_with c "/camera_info").
        * destruct Hshape as [items ->]. by exists items.
        * by rewrite Hshape.
      + by apply (Hshapes i c'). }
  split.
  { intros T topics request connection st.
    destruct (Hloop (metadata_names topics) (data_names topics))
      as (opened & Hlen & Hwrites & Hshapes).
    exists (connection_write connection (list_streams_writes topics) st), opened.
    split; [reflexivity|]. split; [exact Hlen|]. split; [|exact Hshapes].
    simpl. unfold list_streams_writes. rewrite collect_topics_spec. simpl app.
    by rewrite Hwrites. }
  split; [exact Hbody|]. split.
  { intros cs image_topics.
    destruct (Hloop cs image_topics) as (opened & Hlen & Hwrites & Hshapes).
    exists opened. split; [exact Hlen|]. split; [exact Hwrites|].
    intros i c Hi Hskip. specialize (Hshapes i c Hi). by rewrite Hskip in Hshapes. }
  intros T request connection st. eexists. split; reflexivity.
Qed.

(** C10 at a request for ["/"] on connection 3 when the bus carries two
    camera-info topics that do not end with the suffix around one that
    does. *)
Lemma closing_tag_for_every_metadata_topic_witness :
  ∃ st',
    handle_list_streams
      [ camera_info_topic "/sensor/info";
        camera_info_topic "/cam1/camera_info";
        image_topic "/cam1/image_raw";
        camera_info_topic "/depth" ]
      (get_request "/" []) 3 (idle_state [])
    = Returned st'
    ∧ trace st'
      = ConnWrite 3
          <$> list_streams_head
              ++ (WData <$>
                    ["</li>"]
                    ++ (["<li>"; "/cam1/"; "<ul>"]
                        ++ rendered_item "/cam1/image_raw" "image_raw"
                        ++ ["</ul>"] ++ ["</li>"])
                    ++ ["</li>"])
              ++ [WData "</ul></body></html>"].
Proof.
  destruct closing_tag_for_every_metadata_topic as (_ & _ & _ & Hpage).
  destruct (Hpage SimpleStreamer (get_request "/" []) 3 (idle_state []))
    as (st' & Hrun & Htrace).
  exists st'. split; [exact Hrun | exact Htrace].
Defined.

(** ** Unknown codecs *)

Section HandlerFacts.
Context {T : Type} `{ImageStreamer T}.

(** C1. A request to [/stream] or [/stream_viewer] whose [type]
    parameter (["mjpeg"] when absent) is not a key of the codec registry
    is answered with the stock not-found reply and nothing else: the
    handler returns normally, the one event it adds to the trace is that
    reply on the request's connection, so no streamer is created or
    started, and the session registry is as it was. *)
Theorem unknown_codec_is_not_found
  (stream_types : gmap string (ImageStreamerType T))
  (request : HttpRequest) (connection : HttpConnectionPtr) (st : State T) :
  stream_types !! get_query_param_value_or_default request "type" "mjpeg" = None →
  ∃ st',
    handle_stream stream_types request connection st = Returned st'
    ∧ handle_stream_viewer stream_types request connection st = Returned st'
    ∧ trace st' = trace st ++ [ConnWrite connection (WStock not_found)]
    ∧ image_subscribers_ st' = image_subscribers_ st
    ∧ subscriber_mutex_ st' = subscriber_mutex_ st
    ∧ (∀ s, StreamerCreated s ∉ drop (length (trace st)) (trace st'))
    ∧ (∀ s, StreamerStarted s ∉ drop (length (trace st)) (trace st')).
Proof.
  intros Hmiss.
  exists (connection_write connection [WStock not_found] st).
  unfold handle_stream, handle_stream_viewer. rewrite Hmiss. simpl.
  rewrite drop_app_length.
  repeat split; try done;
    intros s Hin; apply list_elem_of_singleton in Hin; discriminate Hin.
Qed.

End HandlerFacts.

(** C1 at a request for the codec ["theora"], with no parameter set at
    start-up: the registry holds ["mjpeg"], ["vp8"] and ["h264"]. *)
Lemma unknown_codec_is_not_found_witness :
  ∃ st',
    handle_stream (stream_types_ (example_server two_cameras ∅))
      (get_request "/stream" [("type", "theora"); ("topic", "/cam1/image_raw")])
      7 (idle_state [live_b])
    = Returned st'
    ∧ trace st' = [ConnWrite 7 (WStock not_found)]
    ∧ image_subscribers_ st' = [live_b].
Proof.
  destruct (unknown_codec_is_not_found
              (stream_types_ (example_server two_cameras ∅))
              (get_request "/stream" [("type", "theora"); ("topic", "/cam1/image_raw")])
              7 (idle_state [live_b]) eq_refl)
    as (st' & Hrun & _ & Htrace & Hsubs & _).
  exists st'. split; [exact Hrun|]. split; [exact Htrace | exact Hsubs].
Defined.

(** ** Fault isolation in ros_connection_logger *)

Section LoggerFacts.
Context {T : Type}.
Variable forward : HttpServerRequestHandler T.

Lemma logger_catches_std_exception
  (request : HttpRequest) (connection : HttpConnectionPtr) (st st' : State T)
  (what : string) :
  forward request connection
    (emit [RosInfo ("Handling Request: " +:+ uri request)] st)
  = Thrown (StdException what) st' →
  ros_connection_logger forward request connection st
  = Returned (emit [RosWarn ("Error Handling Request: " +:+ what)] st').
Proof. unfold ros_connection_logger. by intros ->. Qed.

Lemma serve_app (handler : HttpServerRequestHandler T)
  (first rest : list (HttpRequest * HttpConnectionPtr)) (st st1 : State T) :
  serve handler first st = Returned st1 →
  serve handler (first ++ rest) st = serve handler rest st1.
Proof.
  revert st. induction first as [|[r c] first IH]; intros st; simpl.
  { by intros [= ->]. }
  destruct (handler r c st) as [st'|e st']; [apply IH | discriminate].
Qed.

Lemma serve_failing (failing : list (HttpRequest * HttpConnectionPtr)) (st : State T) :
  (∀ r c s, (r, c) ∈ failing →
            ∃ what s', forward r c s = Thrown (StdException what) s') →
  ∃ st1, serve (ros_connection_logger forward) failing st = Returned st1.
Proof.
  revert st. induction failing as [|[r c] failing IH]; intros st Hfail; simpl.
  { by eauto. }
  destruct (Hfail r c (emit [RosInfo ("Handling Request: " +:+ uri r)] st))
    as (what & s' & Hthrow); [by left|].
  rewrite (logger_catches_std_exception _ _ _ _ _ Hthrow).
  apply IH. intros r' c' s Hin. apply Hfail. by right.
Qed.

(** C4, amended.  An exception derived from [std::exception] that leaves
    the handler is logged as a warning with its [what()] text and the
    logger returns normally, in the state the handler had reached.
    Hence, after any run of requests whose handling fails with such
    exceptions on every call, the thread is still serving: a later
    request whose handler succeeds is passed to it and succeeds.  An
    exception of any other type is not caught: it leaves the logger as
    it left the handler, in the state the handler had reached, with no
    warning logged. *)
Theorem logger_isolates_std_exceptions :
  (∀ request connection st what st',
     forward request connection
       (emit [RosInfo ("Handling Request: " +:+ uri request)] st)
     = Thrown (StdException what) st' →
     ros_connection_logger forward request connection st
     = Returned (emit [RosWarn ("Error Handling Request: " +:+ what)] st'))
  ∧ (∀ failing request connection st,
       (∀ r c s, (r, c) ∈ failing →
                 ∃ what s', forward r c s = Thrown (StdException what) s') →
       (∀ s, ∃ s', forward request connection s = Returned s') →
       ∃ st1 st2,
         serve (ros_connection_logger forward) failing st = Returned st1
         ∧ forward request connection
             (emit [RosInfo ("Handling Request: " +:+ uri request)] st1)
           = Returned st2
         ∧ serve (ros_connection_logger forward)
             (failing ++ [(request, connection)]) st
           = Returned st2)
  ∧ (∀ request connection st description st',
       forward request connection
         (emit [RosInfo ("Handling Request: " +:+ uri request)] st)
       = Thrown (ForeignException description) st' →
       ros_connection_logger forward request connection st
       = Thrown (ForeignException description) st').
Proof.
  split; [intros; by apply logger_catches_std_exception|].
  split.
  - intros failing request connection st Hfail Hok.
    destruct (serve_failing failing st Hfail) as [st1 Hst1].
    destruct (Hok (emit [RosInfo ("Handling Request: " +:+ uri request)] st1))
      as [st2 Hst2].
    exists st1, st2. split; [done|]. split; [done|].
    rewrite (serve_app _ _ _ _ _ Hst1). simpl.
    unfold ros_connection_logger. by rewrite Hst2.
  - intros request connection st description st' Hthrow.
    unfold ros_connection_logger. by rewrite Hthrow.
Qed.

End LoggerFacts.

(** C4, amended, at a dispatch table whose ["/boom"] handler always
    throws a [std::runtime_error]: after two requests to it, the
    directory page is still served; and at a handler that throws a value
    of another type, which leaves the logger. *)
Lemma logger_isolates_std_exceptions_witness :
  (∃ st1 st2,
     serve (ros_connection_logger (handle_request faulty_group))
       [(get_request "/boom" [], 1); (get_request "/boom" [], 2)] (idle_state [])
     = Returned st1
     ∧ handle_request faulty_group (get_request "/" []) 3
         (emit [RosInfo ("Handling Request: " +:+ uri (get_request "/" []))] st1)
       = Returned st2
     ∧ serve (ros_connection_logger (handle_request faulty_group))
         ([(get_request "/boom" [], 1); (get_request "/boom" [], 2)]
          ++ [(get_request "/" [], 3)]) (idle_state [])
       = Returned st2)
  ∧ ros_connection_logger throws_foreign (get_request "/stream" []) 4
      (idle_state [live_b])
    = Thrown (ForeignException "boost::thread_interrupted")
        (emit [RosInfo "Handling Request: /stream"] (idle_state [live_b])).
Proof.
  split.
  - destruct (logger_isolates_std_exceptions (handle_request faulty_group))
      as (_ & Hserve & _).
    apply Hserve.
    + intros r c s Hin.
      exists "std::runtime_error", s.
      apply elem_of_cons in Hin as [[= -> ->]|Hin]; [reflexivity|].
      apply list_elem_of_singleton in Hin as [= -> ->]. reflexivity.
    + intros s. eexists. reflexivity.
  - destruct (logger_isolates_std_exceptions throws_foreign) as (_ & _ & Hforeign).
    exact (Hforeign (get_request "/stream" []) 4 (idle_state [live_b])
             "boost::thread_interrupted" _ eq_refl).
Defined.

(** C4 as stated fails: an exception that is not derived from
    [std::exception] leaves the logger, no warning is logged, and the
    request behind it is not served. *)
Lemma logger_lets_foreign_exceptions_through :
  ros_connection_logger (handle_request foreign_group) (get_request "/boom" []) 1
    (idle_state [])
  = Thrown (ForeignException "boost::thread_interrupted")
      (emit [RosInfo "Handling Request: /boom"] (idle_state []))
  ∧ serve (ros_connection_logger (handle_request foreign_group))
      [(get_request "/boom" [], 1); (get_request "/" [], 2)] (idle_state [])
    = Thrown (ForeignException "boost::thread_interrupted")
        (emit [RosInfo "Handling Request: /boom"] (idle_state []))
  ∧ ¬ (∀ (forward : HttpServerRequestHandler SimpleStreamer)
         request connection st e st',
         forward request connection
           (emit [RosInfo ("Handling Request: " +:+ uri request)] st)
         = Thrown e st' →
         ∃ st'' msg,
           ros_connection_logger forward request connection st = Returned st''
           ∧ trace st'' = trace st' ++ [RosWarn msg]).
Proof.
  split; [reflexivity|]. split; [reflexivity|].
  intros Hclaim.
  destruct (Hclaim throws_foreign (get_request "/boom" []) 1 (idle_state [])
              _ _ eq_refl) as (st'' & msg & Hrun & _).
  discriminate Hrun.
Qed.

(** ** Start-up configuration *)

Section ConstructorFacts.
Context {T : Type} `{ImageStreamer T}.
Variable mjpeg vp8 : ImageStreamerType T.
Variable libav : string → string → string → ImageStreamerType T.
Variable snapshot : HttpRequest → HttpConnectionPtr → T.
Variable topics : list TopicInfo.

(** C9. Whatever the parameters say, the cleanup timer runs the sweep
    every half second, 500 ms; the HTTP server listens on port 8080 when
    [port] is not set, with one thread when [server_threads] is not set;
    and the bus is spun with two threads when [ros_threads] is not
    set. *)
Theorem startup_defaults (private_nh : gmap string Z) :
  (private_nh !! "port" = None →
   port (server_ (WebVideoServer_new mjpeg vp8 libav snapshot topics private_nh))
   = "8080")
  ∧ (private_nh !! "server_threads" = None →
     thread_pool_size
       (server_ (WebVideoServer_new mjpeg vp8 libav snapshot topics private_nh))
     = 1%Z)
  ∧ (private_nh !! "ros_threads" = None →
     ros_threads_ (WebVideoServer_new mjpeg vp8 libav snapshot topics private_nh)
     = 2%Z)
  ∧ to_msec
      (period
         (cleanup_timer_
            (WebVideoServer_new mjpeg vp8 libav snapshot topics private_nh)))
    = 500%Z
  ∧ callback
      (cleanup_timer_
         (WebVideoServer_new mjpeg vp8 libav snapshot topics private_nh))
    = cleanup_inactive_streams.
Proof.
  unfold WebVideoServer_new, param. simpl.
  split; [by intros ->|]. split; [by intros ->|]. split; [by intros ->|].
  split; reflexivity.
Qed.

End ConstructorFacts.

(** C9 with no parameter set, and with only the port set. *)
Lemma startup_defaults_witness :
  (port (server_ (example_server [] ∅)) = "8080"
   ∧ thread_pool_size (server_ (example_server [] ∅)) = 1%Z
   ∧ ros_threads_ (example_server [] ∅) = 2%Z)
  ∧ (port (server_ (example_server [] {["port" := 9090%Z]})) = "9090"
     ∧ thread_pool_size (server_ (example_server [] {["port" := 9090%Z]})) = 1%Z
     ∧ to_msec (period (cleanup_timer_ (example_server [] {["port" := 9090%Z]})))
       = 500%Z).
Proof.
  split.
  - destruct (startup_defaults simple_type simple_type (λ _ _ _, simple_type)
                simple_snapshot [] ∅) as (Hport & Hserver & Hros & _).
    split; [exact (Hport eq_refl)|]. split; [exact (Hserver eq_refl) | exact (Hros eq_refl)].
  - destruct (startup_defaults simple_type simple_type (λ _ _ _, simple_type)
                simple_snapshot [] {["port" := 9090%Z]})
      as (_ & Hserver & _ & Hperiod & _).
    split; [reflexivity|]. split; [exact (Hserver eq_refl) | exact Hperiod].
Defined.

(** ** The sweep at concrete registries *)

(** C2 at a registry of two active and two inactive sessions, and at a
    registry of inactive sessions only. *)
Lemma sweep_keeps_exactly_the_active_witness :
  (subscriber_mutex_ (idle_state [live_b; dead_a; live_d; dead_c]) = false
   ∧ image_subscribers_
       (cleanup_inactive_streams (idle_state [live_b; dead_a; live_d; dead_c]))
     = [live_b; live_d])
  ∧ (Forall (λ s, isInactive s = true) (replicate 50 dead_a)
     ∧ image_subscribers_
         (cleanup_inactive_streams (idle_state (replicate 50 dead_a)))
       = []).
Proof.
  split.
  - split; [reflexivity|].
    destruct (sweep_keeps_exactly_the_active
                (idle_state [live_b; dead_a; live_d; dead_c]) eq_refl) as (-> & _).
    reflexivity.
  - assert (Forall (λ s, isInactive s = true) (replicate 50 dead_a)) as Hall.
    { apply Forall_replicate. reflexivity. }
    split; [exact Hall|].
    destruct (sweep_keeps_exactly_the_active
                (idle_state (replicate 50 dead_a)) eq_refl) as (_ & _ & _ & Hempty).
    exact (Hempty Hall).
Defined.

(** C5 at a registry whose lock is held by an inserting handler. *)
Lemma sweep_contended_is_noop_witness :
  subscriber_mutex_ (contended_state [dead_a; live_b]) = true
  ∧ cleanup_inactive_streams (contended_state [dead_a; live_b])
    = contended_state [dead_a; live_b].
Proof.
  split; [reflexivity|].
  exact (sweep_contended_is_noop (contended_state [dead_a; live_b]) eq_refl).
Defined.

(** C8 at a registry of two active and two inactive sessions. *)
Lemma sweep_idempotent_witness :
  subscriber_mutex_ (idle_state [live_b; dead_a; live_d; dead_c]) = false
  ∧ cleanup_inactive_streams
      (cleanup_inactive_streams (idle_state [live_b; dead_a; live_d; dead_c]))
    = cleanup_inactive_streams (idle_state [live_b; dead_a; live_d; dead_c])
  ∧ image_subscribers_
      (cleanup_inactive_streams
         (cleanup_inactive_streams (idle_state [live_b; dead_a; live_d; dead_c])))
    = [live_b; live_d].
Proof.
  split; [reflexivity|].
  destruct (sweep_idempotent (idle_state [live_b; dead_a; live_d; dead_c]) eq_refl)
    as (_ & Htwice & Hsubs & _).
  split; [exact Htwice|]. rewrite Hsubs. reflexivity.
Defined.

(** * Further properties of the code *)

(** ** What the sweep logs and what it leaves *)

Section AlgorithmTail.
Context {A : Type}.
Variable pred : A → bool.

(** The compaction loop writes below the new end only: the slots from
    the new end on are as they were. *)
Lemma remove_if_loop_tail (n : nat) :
  ∀ (first result : nat) (v : list A),
    result ≤ first → first + n = length v →
    ∀ r v', remove_if_loop pred n first result v = (r, v') →
      drop r v' = drop r v.
Proof.
  induction n as [|n IH]; intros first result v Hle Hlen r v' Hrun.
  { simpl in Hrun. by injection Hrun as <- <-. }
  pose proof Hrun as Hspec. simpl in Hrun.
  destruct (v !! first) as [x|] eqn:Hx; [|by injection Hrun as <- <-].
  destruct (pred x) eqn:Hp.
  - by apply IH in Hrun; [|lia..].
  - pose proof Hrun as Hbound.
    apply remove_if_loop_spec in Hbound; [|rewrite ?length_insert; lia..].
    apply IH in Hrun; [|rewrite ?length_insert; lia..].
    rewrite Hrun. apply drop_insert_lt. lia.
Qed.

Lemma remove_if_tail (v : list A) (r : nat) (v' : list A) :
  remove_if pred v = (r, v') →
  r = length (filter (λ x, ¬ pred x) v) ∧ drop r v' = drop r v.
Proof.
  intros Hrun. destruct (remove_if_spec _ _ _ _ Hrun) as (Hkept & Hlen & Hr).
  split.
  - rewrite <- Hkept, length_take. lia.
  - revert Hrun. unfold remove_if.
    destruct (decide (find_if pred v = length v)); [by intros [= <- <-]|].
    pose proof (find_if_le pred v).
    intros Hrun. by apply remove_if_loop_tail in Hrun; [|lia..].
Qed.

Lemma filter_complement_length (v : list A) :
  length (filter (λ x, ¬ pred x) v) + length (filter (λ x, pred x = true) v)
  = length v.
Proof.
  induction v as [|x v IH]; [done|]. rewrite !filter_cons.
  destruct (pred x); simpl; lia.
Qed.

End AlgorithmTail.

Section SweepMore.
Context {T : Type} `{ImageStreamer T}.

(** The sweep with the lock acquired, with its log lines in closed form. *)
Lemma cleanup_unlocked_closed (st : State T) :
  subscriber_mutex_ st = false →
  cleanup_inactive_streams st
  = {| image_subscribers_ := filter (λ s, ¬ isInactive s) (image_subscribers_ st);
       subscriber_mutex_ := false;
       trace :=
         trace st
         ++ (removed_stream_line
               <$> drop (length (filter (λ s, ¬ isInactive s) (image_subscribers_ st)))
                     (image_subscribers_ st)) |}.
Proof.
  intros Hfree. destruct (cleanup_unlocked st Hfree) as (new_end & v & Hrun & ->).
  by destruct (remove_if_tail _ _ _ _ Hrun) as [<- ->].
Qed.

(** X1. An uncontended sweep that finds [k] inactive sessions logs the
    topics of the last [k] sessions of the registry as it was, in their
    order, whichever sessions are the inactive ones. *)
Theorem sweep_logs_the_trailing_sessions (st : State T) :
  subscriber_mutex_ st = false →
  trace (cleanup_inactive_streams st)
  = trace st
    ++ (removed_stream_line
          <$> drop (length (image_subscribers_ st)
                    - length (filter (λ s, isInactive s = true) (image_subscribers_ st)))
                (image_subscribers_ st)).
Proof.
  intros Hfree. rewrite cleanup_unlocked_closed by done. simpl.
  pose proof (filter_complement_length isInactive (image_subscribers_ st)) as Hsum.
  do 3 f_equal. lia.
Qed.

(** X2. An uncontended sweep logs one line per session it removes: the
    trace grows by as many lines as there are inactive sessions, and the
    registry shrinks by that number. *)
Theorem sweep_logs_one_line_per_removal (st : State T) :
  subscriber_mutex_ st = false →
  ∃ lines,
    trace (cleanup_inactive_streams st) = trace st ++ lines
    ∧ length lines
      = length (filter (λ s, isInactive s = true) (image_subscribers_ st))
    ∧ length (image_subscribers_ (cleanup_inactive_streams st)) + length lines
      = length (image_subscribers_ st).
Proof.
  intros Hfree. rewrite cleanup_unlocked_closed by done. simpl.
  eexists. split; [reflexivity|].
  pose proof (filter_complement_length isInactive (image_subscribers_ st)) as Hsum.
  rewrite length_fmap, length_drop. lia.
Qed.

(** X3. When no active session stands behind an inactive one, the lines
    an uncontended sweep logs are the topics of the sessions it removes,
    in registry order. *)
Theorem sweep_logs_removed_when_they_trail
  (st : State T) (active inactive : list T) :
  subscriber_mutex_ st = false →
  image_subscribers_ st = active ++ inactive →
  Forall (λ s, isInactive s = false) active →
  Forall (λ s, isInactive s = true) inactive →
  image_subscribers_ (cleanup_inactive_streams st) = active
  ∧ trace (cleanup_inactive_streams st)
    = trace st ++ (removed_stream_line <$> inactive).
Proof.
  intros Hfree Hsubs Hact Hinact. rewrite cleanup_unlocked_closed by done. simpl.
  assert (filter (λ s, ¬ isInactive s) (image_subscribers_ st) = active) as ->.
  { rewrite Hsubs, filter_app.
    assert (filter (λ s, ¬ isInactive s) inactive = []) as ->.
    { clear Hsubs. induction Hinact as [|s l Hs _ IH]; [done|].
      rewrite filter_cons_False; [exact IH|]. by_pred Hs. }
    rewrite app_nil_r. clear Hsubs.
    induction Hact as [|s l Hs _ IH]; [done|].
    rewrite filter_cons_True; [by rewrite IH|]. by_pred Hs. }
  split; [done|]. by rewrite Hsubs, drop_app_length.
Qed.

(** X4. An uncontended sweep of a registry without inactive sessions,
    the empty registry included, changes nothing and logs nothing. *)
Theorem sweep_without_inactive_is_noop (st : State T) :
  subscriber_mutex_ st = false →
  Forall (λ s, isInactive s = false) (image_subscribers_ st) →
  cleanup_inactive_streams st = st.
Proof.
  intros Hfree Hall. unfold cleanup_inactive_streams. rewrite Hfree.
  rewrite remove_if_none.
  - rewrite firstn_all, drop_all. simpl. rewrite app_nil_r.
    destruct st; simpl in *. by rewrite Hfree.
  - eapply Forall_impl; [exact Hall|]. intros s Hs. by_pred Hs.
Qed.

End SweepMore.

(** ** Handlers and the registry *)

Section RegistryFacts.
Context {T : Type} `{ImageStreamer T}.
Variable stream_types : gmap string (ImageStreamerType T).
Variable snapshot : HttpRequest → HttpConnectionPtr → T.
Variable topics : list TopicInfo.

Lemma filter_active_snoc (l : list T) (s : T) :
  filter (λ s, ¬ isInactive s) (l ++ [s])
  = filter (λ s, ¬ isInactive s) l ++ (if isInactive s then [] else [s]).
Proof.
  rewrite filter_app. f_equal. rewrite filter_cons, filter_nil.
  by destruct (isInactive s).
Qed.

(** X5. A sweep right after a snapshot or stream request keeps the new
    session, at the end of the registry, exactly when it is still
    active; the handler leaves the lock free, so that sweep is never
    skipped. *)
Theorem sweep_after_insert
  (request : HttpRequest) (connection : HttpConnectionPtr) (st : State T) :
  (∃ st1,
     handle_snapshot snapshot request connection st = Returned st1
     ∧ image_subscribers_ (cleanup_inactive_streams st1)
       = filter (λ s, ¬ isInactive s) (image_subscribers_ st)
         ++ (if isInactive (snapshot request connection) then []
             else [snapshot request connection]))
  ∧ ∀ stream_type,
      stream_types !! get_query_param_value_or_default request "type" "mjpeg"
      = Some stream_type →
      ∃ st1,
        handle_stream stream_types request connection st = Returned st1
        ∧ image_subscribers_ (cleanup_inactive_streams st1)
          = filter (λ s, ¬ isInactive s) (image_subscribers_ st)
            ++ (if isInactive (create_streamer stream_type request connection)
                then [] else [create_streamer stream_type request connection]).
Proof.
  split.
  - eexists. split; [reflexivity|].
    rewrite cleanup_unlocked_closed by done. simpl. apply filter_active_snoc.
  - intros stream_type Hfound. eexists. split.
    + unfold handle_stream. rewrite Hfound. reflexivity.
    + rewrite cleanup_unlocked_closed by done. simpl. apply filter_active_snoc.
Qed.

(** X6. Registering an active session and sweeping commute: with the
    lock free, the registry is the same whether the sweep runs before or
    after the insertion. *)
Theorem sweep_commutes_with_insert (s : T) (st : State T) :
  subscriber_mutex_ st = false →
  isInactive s = false →
  image_subscribers_ (register_streamer s (cleanup_inactive_streams st))
  = image_subscribers_ (cleanup_inactive_streams (register_streamer s st)).
Proof.
  intros Hfree Hactive. rewrite !cleanup_unlocked_closed by done. simpl.
  by rewrite filter_active_snoc, Hactive.
Qed.

(** X7. No request handler removes or reorders sessions or rewrites the
    trace: each of the four handlers returns normally, with the old
    registry as a prefix of the new one, at most one session added, and
    the old trace as a prefix of the new one. *)
Theorem handlers_only_append
  (request : HttpRequest) (connection : HttpConnectionPtr) (st : State T)
  (handler : HttpServerRequestHandler T) :
  handler ∈ [ handle_list_streams topics; handle_stream stream_types;
              handle_stream_viewer stream_types; handle_snapshot snapshot ] →
  ∃ st',
    handler request connection st = Returned st'
    ∧ image_subscribers_ st `prefix_of` image_subscribers_ st'
    ∧ length (image_subscribers_ st') ≤ length (image_subscribers_ st) + 1
    ∧ trace st `prefix_of` trace st'.
Proof.
  intros Hin. repeat (apply elem_of_cons in Hin as [->|Hin]).
  - eexists. split; [reflexivity|]. simpl.
    split; [done|]. split; [lia|]. by eexists.
  - unfold handle_stream.
    destruct (stream_types !! _); eexists; (split; [reflexivity|]); simpl.
    + split; [by eexists|]. split; [rewrite length_app; simpl; lia|].
      rewrite <- app_assoc. by eexists.
    + split; [done|]. split; [lia|]. by eexists.
  - unfold handle_stream_viewer.
    destruct (stream_types !! _); eexists; (split; [reflexivity|]); simpl.
    + split; [done|]. split; [lia|]. rewrite <- app_assoc. by eexists.
    + split; [done|]. split; [lia|]. by eexists.
  - eexists. split; [reflexivity|]. simpl.
    split; [by eexists|]. split; [rewrite length_app; simpl; lia|].
    rewrite <- app_assoc. by eexists.
  - by apply elem_of_nil in Hin.
Qed.

(** X8. The directory and viewer handlers are read-only for the
    registry: whatever the request, they leave the sessions and the lock
    as they are, create and start no streamer, and only write to the
    connection of the request. *)
Theorem page_handlers_leave_the_registry
  (request : HttpRequest) (connection : HttpConnectionPtr) (st : State T)
  (handler : HttpServerRequestHandler T) :
  handler ∈ [handle_list_streams topics; handle_stream_viewer stream_types] →
  ∃ st' writes,
    handler request connection st = Returned st'
    ∧ image_subscribers_ st' = image_subscribers_ st
    ∧ subscriber_mutex_ st' = subscriber_mutex_ st
    ∧ trace st' = trace st ++ (ConnWrite connection <$> writes)
    ∧ writes ≠ [].
Proof.
  intros Hin. repeat (apply elem_of_cons in Hin as [->|Hin]).
  - exists (connection_write connection (list_streams_writes topics) st),
      (list_streams_writes topics).
    repeat split; try done. unfold list_streams_writes.
    by destruct (collect_topics topics [] []).
  - unfold handle_stream_viewer.
    destruct (stream_types !! _); eexists; eexists;
      (split; [reflexivity|]); simpl.
    + split; [done|]. split; [done|]. split; [|shelve].
      rewrite <- app_assoc. simpl.
      instantiate (1 := [_; _]). reflexivity.
    + split; [done|]. split; [done|]. split; [|shelve].
      instantiate (1 := [_]). reflexivity.
  - by apply elem_of_nil in Hin.
  Unshelve. all: done.
Qed.

End RegistryFacts.

(** ** More on the directory page *)

(** X9. The directory page depends only on the names of the image
    topics and of the camera-info topics, each in discovery order:
    topics of any other type, and the way the two kinds interleave, do
    not change a byte of it. *)
Theorem directory_depends_on_names_only (topics topics' : list TopicInfo) :
  data_names topics = data_names topics' →
  metadata_names topics = metadata_names topics' →
  list_streams_writes topics = list_streams_writes topics'.
Proof.
  intros Hdata Hmeta. by rewrite !list_streams_writes_spec, Hdata, Hmeta.
Qed.

Lemma claimant_none (cs : list string) (d : string) :
  claimant cs d = None ↔ ∀ c, c ∈ cs → can_claim c d = false.
Proof.
  induction cs as [|c cs IH].
  { split; [|done]. intros _ c Hc. by apply elem_of_nil in Hc. }
  rewrite (claimant_tail c cs d None), IH. split.
  - intros [Hrest Hc] c' Hc'. apply elem_of_cons in Hc' as [->|Hc'].
    + by destruct (can_claim c d); [destruct Hc|].
    + by apply Hrest.
  - intros Hall. split.
    + intros c' Hc'. apply Hall. by right.
    + rewrite (Hall c); [tauto|by left].
Qed.

Lemma filter_none_claimed (c : string) (image_topics : list string) :
  (∀ d, d ∈ image_topics → can_claim c d = false) →
  filter (λ d, can_claim c d) image_topics = []
  ∧ filter (λ d, ¬ can_claim c d) image_topics = image_topics.
Proof.
  induction image_topics as [|d rest IH]; intros Hnone; [done|].
  destruct IH as [IH1 IH2]; [intros d' Hd'; apply Hnone; by right|].
  assert (can_claim c d = false) as Hd by (apply Hnone; by left).
  rewrite filter_cons_False, filter_cons_True by by_pred Hd.
  by rewrite IH1, IH2.
Qed.

(** X10. When no camera-info topic ends with ["/camera_info"], in
    particular when there is none, the page lists no image topic at
    all: the loop writes one closing tag per camera-info topic and every
    image topic is left in the working set. *)
Theorem no_camera_no_listing (cs image_topics : list string) :
  Forall (λ c, Str.ends_with c "/camera_info" = false) cs →
  list_camera_info_topics cs image_topics
  = (replicate (length cs) "</li>", image_topics).
Proof.
  intros Hall. revert image_topics.
  induction Hall as [|c cs Hc _ IH]; intros image_topics; [done|].
  simpl. rewrite list_camera_info_topic_skipped by done. by rewrite IH.
Qed.

Lemma Str_starts_with_trans (d b2 b1 : string) :
  Str.starts_with d b2 = true → Str.starts_with b2 b1 = true →
  Str.starts_with d b1 = true.
Proof.
  revert d b2. induction b1 as [|x b1 IH]; intros d b2; [done|].
  destruct b2 as [|y b2]; [done|]. destruct d as [|z d]; [done|]. simpl.
  destruct (Ascii.eqb_spec z y) as [->|]; [|done].
  destruct (Ascii.eqb_spec y x) as [->|]; [|done].
  apply IH.
Qed.

(** X11. A camera-info topic is shadowed by an earlier one whose base is
    a prefix of its own (a parent namespace, or the same name listed
    twice): when its turn comes the working set holds no image topic
    under its base, so it claims nothing and its group is rendered
    empty. *)
Theorem shadowed_camera_lists_nothing
  (pre mid image_topics : list string) (c1 c2 : string) :
  Str.ends_with c1 "/camera_info" = true →
  Str.starts_with (base_of c2) (base_of c1) = true →
  list_camera_info_topic c2
    (list_camera_info_topics (pre ++ c1 :: mid) image_topics).2
  = (directory_entry c2 [],
     (list_camera_info_topics (pre ++ c1 :: mid) image_topics).2).
Proof.
  intros Hends Hprefix.
  rewrite list_camera_info_topic_spec, list_camera_info_topics_spec. simpl.
  destruct (filter_none_claimed c2
              (filter (λ d, claimant (pre ++ c1 :: mid) d = None) image_topics))
    as [-> ->]; [|done].
  intros d Hd. apply list_elem_of_filter in Hd as [Hnone _].
  rewrite claimant_none in Hnone.
  specialize (Hnone c1). rewrite elem_of_app, elem_of_cons in Hnone.
  specialize (Hnone ltac:(auto)).
  unfold can_claim in *. rewrite Hends in Hnone. simpl in Hnone.
  destruct (Str.ends_with c2 "/camera_info"); [simpl|done].
  destruct (Str.starts_with d (base_of c2)) eqn:Hd2; [|done].
  by rewrite (Str_starts_with_trans _ _ _ Hd2 Hprefix) in Hnone.
Qed.

(** ** The server as constructed *)

Section ServerFacts.
Context {T : Type} `{ImageStreamer T}.
Variable mjpeg vp8 : ImageStreamerType T.
Variable libav : string → string → string → ImageStreamerType T.
Variable snapshot : HttpRequest → HttpConnectionPtr → T.
Variable topics : list TopicInfo.

(** X12. Whatever the parameters, the codec registry of a constructed
    server holds exactly three entries: ["mjpeg"], ["vp8"] and ["h264"],
    the last one the libav type for mp4 / libx264 / video/mp4; every
    other name, differing in case for instance, misses. *)
Theorem codec_registry_contents (private_nh : gmap string Z) :
  dom (stream_types_ (WebVideoServer_new mjpeg vp8 libav snapshot topics private_nh))
  = ({["mjpeg"; "vp8"; "h264"]} : gset string)
  ∧ ∀ k,
      stream_types_ (WebVideoServer_new mjpeg vp8 libav snapshot topics private_nh)
        !! k
      = if decide (k = "mjpeg") then Some mjpeg
        else if decide (k = "vp8") then Some vp8
        else if decide (k = "h264") then Some (libav "mp4" "libx264" "video/mp4")
        else None.
Proof.
  unfold WebVideoServer_new. simpl. split.
  - rewrite !dom_insert_L, dom_empty_L. set_solver.
  - intros k. rewrite !lookup_insert, lookup_empty.
    repeat case_decide; congruence.
Qed.

(** X13. A [/stream] or [/stream_viewer] request without a [type]
    parameter is served by the mjpeg codec of the constructed server:
    the stream handler registers the streamer the mjpeg factory makes
    for the request, after creating and starting it, and writes nothing
    itself; the viewer handler answers 200 with the mjpeg viewer
    fragment in the body. *)
Theorem missing_type_means_mjpeg
  (private_nh : gmap string Z)
  (request : HttpRequest) (connection : HttpConnectionPtr) (st : State T) :
  query_params request !! "type" = None →
  handle_stream
    (stream_types_ (WebVideoServer_new mjpeg vp8 libav snapshot topics private_nh))
    request connection st
  = Returned
      {| image_subscribers_ :=
           image_subscribers_ st ++ [create_streamer mjpeg request connection];
         subscriber_mutex_ := false;
         trace :=
           trace st
           ++ [StreamerCreated (create_streamer mjpeg request connection);
               StreamerStarted (create_streamer mjpeg request connection)] |}
  ∧ handle_stream_viewer
      (stream_types_ (WebVideoServer_new mjpeg vp8 libav snapshot topics private_nh))
      request connection st
    = Returned
        (connection_write connection
           [WHead ok [("Connection", "close");
                      ("Server", "web_video_server");
                      ("Content-type", "text/html;")];
            WData ("<html><head><title>"
                   +:+ get_query_param_value_or_default request "topic" ""
                   +:+ "</title></head><body><h1>"
                   +:+ get_query_param_value_or_default request "topic" ""
                   +:+ "</h1>"
                   +:+ create_viewer mjpeg request
                   +:+ "</body></html>")] st).
Proof.
  intros Hmissing.
  assert (stream_types_
            (WebVideoServer_new mjpeg vp8 libav snapshot topics private_nh)
            !! "mjpeg" = Some mjpeg) as Hmjpeg.
  { unfold WebVideoServer_new. simpl.
    by rewrite lookup_insert_ne, lookup_insert_ne, lookup_insert_eq. }
  unfold handle_stream, handle_stream_viewer, get_query_param_value_or_default.
  rewrite Hmissing. simpl default at 1 2. rewrite Hmjpeg.
  split.
  - unfold register_streamer, emit. simpl. by rewrite <- app_assoc.
  - unfold connection_write, emit, get_query_param_value_or_default. simpl.
    rewrite <- app_assoc. simpl. do 5 f_equal.
    rewrite !Str_append_assoc. by do 2 f_equal.
Qed.

(** X14. The routing table of a constructed server: every request is
    logged, then a request for ["/"], ["/stream"], ["/stream_viewer"] or
    ["/snapshot"] goes to the directory, stream, viewer or snapshot
    handler, and a request for any other path gets the stock not-found
    reply, with the registry untouched. *)
Theorem routing_table
  (private_nh : gmap string Z)
  (request : HttpRequest) (connection : HttpConnectionPtr) (st : State T) :
  request_handler
    (server_ (WebVideoServer_new mjpeg vp8 libav snapshot topics private_nh))
    request connection st
  = ros_connection_logger
      (if decide (path request = "/") then handle_list_streams topics
       else if decide (path request = "/stream") then
         handle_stream
           (stream_types_
              (WebVideoServer_new mjpeg vp8 libav snapshot topics private_nh))
       else if decide (path request = "/stream_viewer") then
         handle_stream_viewer
           (stream_types_
              (WebVideoServer_new mjpeg vp8 libav snapshot topics private_nh))
       else if decide (path request = "/snapshot") then handle_snapshot snapshot
       else stock_reply not_found)
      request connection st
  ∧ (path request ∉ ["/"; "/stream"; "/stream_viewer"; "/snapshot"] →
     request_handler
       (server_ (WebVideoServer_new mjpeg vp8 libav snapshot topics private_nh))
       request connection st
     = Returned
         {| image_subscribers_ := image_subscribers_ st;
            subscriber_mutex_ := subscriber_mutex_ st;
            trace :=
              trace st
              ++ [RosInfo ("Handling Request: " +:+ uri request);
                  ConnWrite connection (WStock not_found)] |}).
Proof.
  assert (request_handler
    (server_ (WebVideoServer_new mjpeg vp8 libav snapshot topics private_nh))
    request connection st
  = ros_connection_logger
      (if decide (path request = "/") then handle_list_streams topics
       else if decide (path request = "/stream") then
         handle_stream
           (stream_types_
              (WebVideoServer_new mjpeg vp8 libav snapshot topics private_nh))
       else if decide (path request = "/stream_viewer") then
         handle_stream_viewer
           (stream_types_
              (WebVideoServer_new mjpeg vp8 libav snapshot topics private_nh))
       else if decide (path request = "/snapshot") then handle_snapshot snapshot
       else stock_reply not_found)
      request connection st) as Hroute.
  { unfold WebVideoServer_new, ros_connection_logger, handle_request. simpl.
    repeat case_decide; reflexivity. }
  split; [exact Hroute|].
  intros Hother. rewrite Hroute.
  rewrite !not_elem_of_cons in Hother. destruct Hother as (? & ? & ? & ? & _).
  rewrite !decide_False by done.
  unfold ros_connection_logger, stock_reply, connection_write, emit. simpl.
  by rewrite <- app_assoc.
Qed.

End ServerFacts.

(** ** The further properties at concrete inputs *)

(** X1 where the inactive session comes first: the last slot is logged. *)
Lemma sweep_logs_the_trailing_sessions_witness :
  subscriber_mutex_ (idle_state [dead_a; live_b; live_d]) = false
  ∧ trace (cleanup_inactive_streams (idle_state [dead_a; live_b; live_d]))
    = [RosInfo "Removed Stream: /d"].
Proof.
  split; [reflexivity|].
  rewrite (sweep_logs_the_trailing_sessions
             (idle_state [dead_a; live_b; live_d]) eq_refl).
  reflexivity.
Defined.

(** X2 at a registry of two active and two inactive sessions. *)
Lemma sweep_logs_one_line_per_removal_witness :
  subscriber_mutex_ (idle_state [live_b; dead_a; live_d; dead_c]) = false
  ∧ ∃ lines,
      trace (cleanup_inactive_streams (idle_state [live_b; dead_a; live_d; dead_c]))
      = lines
      ∧ length lines = 2.
Proof.
  split; [reflexivity|].
  destruct (sweep_logs_one_line_per_removal
              (idle_state [live_b; dead_a; live_d; dead_c]) eq_refl)
    as (lines & Htrace & Hlen & _).
  exists lines. split; [exact Htrace | exact Hlen].
Defined.

(** X3 at a registry whose inactive sessions are the last two. *)
Lemma sweep_logs_removed_when_they_trail_witness :
  image_subscribers_ (cleanup_inactive_streams (idle_state [live_b; live_d; dead_a; dead_c]))
  = [live_b; live_d]
  ∧ trace (cleanup_inactive_streams (idle_state [live_b; live_d; dead_a; dead_c]))
    = [RosInfo "Removed Stream: /a"; RosInfo "Removed Stream: /c"].
Proof.
  destruct (sweep_logs_removed_when_they_trail
              (idle_state [live_b; live_d; dead_a; dead_c])
              [live_b; live_d] [dead_a; dead_c] eq_refl eq_refl)
    as [Hsubs Htrace]; [repeat constructor..|].
  split; [exact Hsubs|]. rewrite Htrace. reflexivity.
Defined.

(** X4 at the empty registry and at a registry of active sessions. *)
Lemma sweep_without_inactive_is_noop_witness :
  cleanup_inactive_streams (idle_state []) = idle_state []
  ∧ cleanup_inactive_streams (idle_state [live_b; live_d])
    = idle_state [live_b; live_d].
Proof.
  split.
  - apply sweep_without_inactive_is_noop; [reflexivity | constructor].
  - apply sweep_without_inactive_is_noop; [reflexivity | repeat constructor].
Defined.

(** X5 at a stream request for the mjpeg codec of the example server. *)
Lemma sweep_after_insert_witness :
  ∃ st1,
    handle_stream (stream_types_ (example_server [] ∅))
      (get_request "/stream" [("topic", "/cam1/image_raw")]) 4
      (contended_state [dead_a; live_b])
    = Returned st1
    ∧ image_subscribers_ (cleanup_inactive_streams st1)
      = [live_b; {| topic_ := "/cam1/image_raw"; inactive_ := false |}].
Proof.
  destruct (sweep_after_insert (stream_types_ (example_server [] ∅)) simple_snapshot
              (get_request "/stream" [("topic", "/cam1/image_raw")]) 4
              (contended_state [dead_a; live_b])) as [_ Hstream].
  destruct (Hstream simple_type eq_refl) as (st1 & Hrun & Hsubs).
  exists st1. split; [exact Hrun|]. rewrite Hsubs. reflexivity.
Defined.

(** X6 at an active session and a registry with one inactive session. *)
Lemma sweep_commutes_with_insert_witness :
  image_subscribers_
    (register_streamer live_d (cleanup_inactive_streams (idle_state [dead_a; live_b])))
  = image_subscribers_
      (cleanup_inactive_streams (register_streamer live_d (idle_state [dead_a; live_b]))).
Proof.
  exact (sweep_commutes_with_insert live_d (idle_state [dead_a; live_b])
           eq_refl eq_refl).
Defined.

(** X7 at a snapshot request. *)
Lemma handlers_only_append_witness :
  ∃ st',
    handle_snapshot simple_snapshot (get_request "/snapshot" []) 5
      (idle_state [dead_a; live_b])
    = Returned st'
    ∧ [dead_a; live_b] `prefix_of` image_subscribers_ st'
    ∧ length (image_subscribers_ st') ≤ 3.
Proof.
  destruct (handlers_only_append (stream_types_ (example_server [] ∅))
              simple_snapshot two_cameras (get_request "/snapshot" []) 5
              (idle_state [dead_a; live_b]) (handle_snapshot simple_snapshot))
    as (st' & Hrun & Hprefix & Hlen & _).
  { do 3 apply list_elem_of_further. apply list_elem_of_here. }
  exists st'. split; [exact Hrun|]. split; [exact Hprefix | exact Hlen].
Defined.

(** X8 at a viewer request for an unregistered codec. *)
Lemma page_handlers_leave_the_registry_witness :
  ∃ st',
    handle_stream_viewer (stream_types_ (example_server [] ∅))
      (get_request "/stream_viewer" [("type", "theora")]) 6
      (contended_state [dead_a; live_b])
    = Returned st'
    ∧ image_subscribers_ st' = [dead_a; live_b]
    ∧ subscriber_mutex_ st' = true.
Proof.
  destruct (page_handlers_leave_the_registry (stream_types_ (example_server [] ∅))
              two_cameras (get_request "/stream_viewer" [("type", "theora")]) 6
              (contended_state [dead_a; live_b])
              (handle_stream_viewer (stream_types_ (example_server [] ∅))))
    as (st' & writes & Hrun & Hsubs & Hlock & _).
  { apply list_elem_of_further, list_elem_of_here. }
  exists st'. split; [exact Hrun|]. split; [exact Hsubs | exact Hlock].
Defined.

(** X9 at the pairing scenario discovered in two different ways. *)
Lemma directory_depends_on_names_only_witness :
  data_names two_cameras = data_names two_cameras_among_others
  ∧ metadata_names two_cameras = metadata_names two_cameras_among_others
  ∧ list_streams_writes two_cameras = list_streams_writes two_cameras_among_others.
Proof.
  split; [reflexivity|]. split; [reflexivity|].
  apply directory_depends_on_names_only; reflexivity.
Defined.

(** X10 with image topics but no camera-info topic, and with one that
    does not end with the suffix. *)
Lemma no_camera_no_listing_witness :
  list_camera_info_topics [] (data_names two_cameras)
  = ([], data_names two_cameras)
  ∧ list_camera_info_topics ["/sensor/info"] (data_names two_cameras)
    = (["</li>"], data_names two_cameras).
Proof.
  split.
  - exact (no_camera_no_listing [] (data_names two_cameras) (Forall_nil_2 _)).
  - apply (no_camera_no_listing ["/sensor/info"] (data_names two_cameras)).
    repeat constructor.
Defined.

(** X11 at a stereo rig: the camera of the left eye is listed after the
    camera of the rig, which claims its images. *)
Lemma shadowed_camera_lists_nothing_witness :
  Str.ends_with "/rig/camera_info" "/camera_info" = true
  ∧ Str.starts_with (base_of "/rig/left/camera_info") (base_of "/rig/camera_info")
    = true
  ∧ list_camera_info_topic "/rig/left/camera_info"
      (list_camera_info_topics ([] ++ "/rig/camera_info" :: [])
         ["/rig/left/image_raw"; "/other/image_raw"]).2
    = (["<li>"; "/rig/left/"; "<ul>"; "</ul>"; "</li>"], ["/other/image_raw"]).
Proof.
  split; [reflexivity|]. split; [reflexivity|].
  rewrite (shadowed_camera_lists_nothing [] [] ["/rig/left/image_raw"; "/other/image_raw"]
             "/rig/camera_info" "/rig/left/camera_info" eq_refl eq_refl).
  reflexivity.
Defined.

(** X12 at the example server: ["MJPEG"] is not a registered codec. *)
Lemma codec_registry_contents_witness :
  stream_types_ (example_server [] ∅) !! "MJPEG" = None
  ∧ stream_types_ (example_server [] ∅) !! "vp8" = Some simple_type.
Proof.
  destruct (codec_registry_contents simple_type simple_type (λ _ _ _, simple_type)
              simple_snapshot [] ∅) as [_ Hlookup].
  split; [exact (Hlookup "MJPEG") | exact (Hlookup "vp8")].
Defined.

(** X13 at a stream request that names a topic only. *)
Lemma missing_type_means_mjpeg_witness :
  query_params (get_request "/stream" [("topic", "/cam1/image_raw")]) !! "type" = None
  ∧ handle_stream (stream_types_ (example_server [] ∅))
      (get_request "/stream" [("topic", "/cam1/image_raw")]) 4 (idle_state [])
    = Returned
        {| image_subscribers_ := [{| topic_ := "/cam1/image_raw"; inactive_ := false |}];
           subscriber_mutex_ := false;
           trace :=
             [StreamerCreated {| topic_ := "/cam1/image_raw"; inactive_ := false |};
              StreamerStarted {| topic_ := "/cam1/image_raw"; inactive_ := false |}] |}.
Proof.
  split; [reflexivity|].
  destruct (missing_type_means_mjpeg simple_type simple_type (λ _ _ _, simple_type)
              simple_snapshot [] ∅
              (get_request "/stream" [("topic", "/cam1/image_raw")]) 4 (idle_state [])
              eq_refl) as [Hstream _].
  exact Hstream.
Defined.

(** X14 at a request for a path that is not in the table. *)
Lemma routing_table_witness :
  (path (get_request "/favicon.ico" [])
   ∉ ["/"; "/stream"; "/stream_viewer"; "/snapshot"])
  ∧ request_handler (server_ (example_server [] ∅)) (get_request "/favicon.ico" []) 9
      (idle_state [live_b])
    = Returned
        {| image_subscribers_ := [live_b];
           subscriber_mutex_ := false;
           trace := [RosInfo "Handling Request: /favicon.ico";
                     ConnWrite 9 (WStock not_found)] |}.
Proof.
  assert (path (get_request "/favicon.ico" [])
          ∉ ["/"; "/stream"; "/stream_viewer"; "/snapshot"]) as Hother.
  { rewrite !not_elem_of_cons. repeat split; try discriminate.
    apply not_elem_of_nil. }
  split; [exact Hother|].
  destruct (routing_table simple_type simple_type (λ _ _ _, simple_type)
              simple_snapshot [] ∅ (get_request "/favicon.ico" []) 9
              (idle_state [live_b])) as [_ Hmiss].
  exact (Hmiss Hother).
Defined.
